(** * LEGO1: Helicopter, Pizza and PizzaMissionState

    A shallow embedding of [LEGO1/lego/legoomni] as far as the sources at hand
    go: the inline members of [Helicopter] (helicopter.h) and the members of
    [Pizza] and [PizzaMissionState] (pizza.cpp).

    Conventions.
    - Fixed-width integers are [Z] with the wrap-around written out.
    - A pointer is an [option]: [None] is [NULL].  A pointer into the array
      [m_state] is the index of the element it points to.
    - C++ member functions that mutate [this] or a global are computations in
      the monad [M St]: they take the state and give back either a value and
      the new state, or [Fault] (an access that C++ leaves undefined: outside
      an array, through [NULL]), or [Timeout] (the loop model gave up).
    - Headers that pizza.cpp includes but that are not among the sources
      (pizza.h, legostate.h, legostorage.h, isleactor.h, ...) are interfaces:
      type classes whose operations the code calls. *)

From stdpp Require Import base list gmap strings.
From Stdlib Require Import ZArith Lia Ascii.

Local Open Scope Z_scope.

(** ** Machine integers *)

Definition MxU8 := Z.
Definition MxS16 := Z.
Definition MxU32 := Z.
Definition MxLong := Z.
Definition MxResult := Z.
Definition MxBool := Z.

Definition wrapS16 (z : Z) : MxS16 := (z + 32768) mod 65536 - 32768.

(** C++ [bool] converted to an integer type. *)
Definition of_bool (b : bool) : Z := if b then 1 else 0.

(** ** Outcomes and the state monad *)

Inductive exec (A : Type) : Type :=
| Done (a : A)
| Fault
| Timeout.
Arguments Done {A} a.
Arguments Fault {A}.
Arguments Timeout {A}.

Definition M (St A : Type) : Type := St → exec (A * St).

#[export] Instance M_ret {St} : MRet (M St) := λ A a s, Done (a, s).
#[export] Instance M_bind {St} : MBind (M St) := λ A B k m s,
  match m s with
  | Done (a, s') => k a s'
  | Fault => Fault
  | Timeout => Timeout
  end.

Definition gets {St A} (f : St → A) : M St A := λ s, Done (f s, s).
Definition modify {St} (f : St → St) : M St unit := λ s, Done (tt, f s).

(** [a[i]] for a C array held as a list: defined inside the array only. *)
Definition array_get {A} (a : list A) (i : Z) : option A :=
  if i <? 0 then None else a !! Z.to_nat i.

(** [for (MxS16 i = start; i < bound; i++) body], where [body] gives
    [Some r] for [return r;] and [None] to fall through to [i++].
    [steps] bounds the number of iterations the model will follow. *)
Fixpoint for_steps {St R} (steps : nat) (i bound : MxS16)
    (body : MxS16 → M St (option R)) : M St (option R) :=
  λ s,
    if i <? bound then
      match steps with
      | O => Timeout
      | S steps' =>
          match body i s with
          | Done (Some r, s') => Done (Some r, s')
          | Done (None, s') => for_steps steps' (wrapS16 (i + 1)) bound body s'
          | Fault => Fault
          | Timeout => Timeout
          end
      end
    else Done (None, s).

(** A counter that starts at [start] and goes up by one needs at most
    [bound - start] iterations to reach [bound]. *)
Definition for_MxS16 {St R} (start bound : MxS16)
    (body : MxS16 → M St (option R)) : M St (option R) :=
  for_steps (Z.to_nat (bound - start)) start bound body.

(** ** C strings *)

Definition uchar (c : ascii) : Z := Z.of_N (N_of_ascii c).

(** A [string] stands for a [const char*]: the characters in memory, closed by
    the terminator.  [strcmp] stops at the first difference or at a
    terminator, and compares the characters as [unsigned char]. *)
Fixpoint strcmp (s1 s2 : string) : Z :=
  match s1, s2 with
  | EmptyString, EmptyString => 0
  | EmptyString, String c2 _ => 0 - uchar c2
  | String c1 _, EmptyString => uchar c1 - 0
  | String c1 r1, String c2 r2 =>
      if uchar c1 =? uchar c2
      then (if uchar c1 =? 0 then 0 else strcmp r1 r2)
      else uchar c1 - uchar c2
  end.

(** The C string that a [const char*] denotes: what comes before the first
    terminator. *)
Fixpoint c_str (s : string) : string :=
  match s with
  | EmptyString => EmptyString
  | String c r => if uchar c =? 0 then EmptyString else String c (c_str r)
  end.

(** ** Save files *)

Definition byte := Z.

(** Modelled from the spec: [LegoFile] (legostorage.h is not among the
    sources).  Section 4.3 gives a stream opened in a mode; the source asks
    [IsReadMode] and, failing that, [IsWriteMode], so a file may be in
    neither.  A file opened for reading holds the bytes not yet consumed, a
    file opened for writing the bytes emitted so far. *)
Inductive OpenMode := c_read | c_write | c_closed.

Record LegoFile := mkFile { m_mode : OpenMode; m_bytes : list byte }.

Definition IsReadMode (f : LegoFile) : bool :=
  match m_mode f with c_read => true | _ => false end.
Definition IsWriteMode (f : LegoFile) : bool :=
  match m_mode f with c_write => true | _ => false end.

(** The result code [SUCCESS] is a macro of mxtypes.h, which is not among the
    sources. *)
Class MxTypes := { SUCCESS : MxResult }.

(** What pizza.cpp takes from pizza.h and legostate.h for
    [PizzaMissionState]: the record [Entry] with its key [m_id] and its two
    file routines, and the base-class [LegoState::Serialize].  Each routine
    may change the object it is called on and the file, and gives a result
    code. *)
Class SaveInterface := {
  Entry : Type;
  m_id : Entry → MxU8;
  Entry_ReadFromFile : Entry → LegoFile → MxResult * Entry * LegoFile;
  Entry_WriteToFile : Entry → LegoFile → MxResult * Entry * LegoFile;
  LegoState_Serialize : LegoFile → MxResult * LegoFile;
}.

(** ** PizzaMissionState *)

Module PizzaMissionState.
Section WithInterface.
Context `{MxTypes} `{SaveInterface}.

(** [m_state] is [Entry m_state[5]]. *)
Record t := mk { m_unk0x0c : MxU32; m_state : list Entry }.

(** The calls [Serialize] makes, in the order it makes them. *)
Inductive Call :=
| CallLegoStateSerialize
| CallReadFromFile (i : Z)
| CallWriteToFile (i : Z).

(** [this], [*p_file], and the calls made so far. *)
Record SerSt := mkSer { s_this : t; s_file : LegoFile; s_calls : list Call }.

Definition set_entry (i : Z) (e : Entry) (this : t) : t :=
  mk (m_unk0x0c this) (<[Z.to_nat i := e]> (m_state this)).

(** [LegoState::Serialize(p_file);] *)
Definition call_LegoState_Serialize : M SerSt MxResult := λ s,
  let '(r, f') := LegoState_Serialize (s_file s) in
  Done (r, mkSer (s_this s) f' (s_calls s ++ [CallLegoStateSerialize])).

(** [m_state[i].ReadFromFile(p_file);] *)
Definition call_ReadFromFile (i : MxS16) : M SerSt MxResult := λ s,
  match array_get (m_state (s_this s)) i with
  | None => Fault
  | Some e =>
      let '(r, e', f') := Entry_ReadFromFile e (s_file s) in
      Done (r, mkSer (set_entry i e' (s_this s)) f' (s_calls s ++ [CallReadFromFile i]))
  end.

(** [m_state[i].WriteToFile(p_file);] *)
Definition call_WriteToFile (i : MxS16) : M SerSt MxResult := λ s,
  match array_get (m_state (s_this s)) i with
  | None => Fault
  | Some e =>
      let '(r, e', f') := Entry_WriteToFile e (s_file s) in
      Done (r, mkSer (set_entry i e' (s_this s)) f' (s_calls s ++ [CallWriteToFile i]))
  end.

(** [for (MxS16 i = 0; i < 5; i++) { m_state[i].ReadFromFile(p_file); }] *)
Definition read_loop : M SerSt (option unit) :=
  for_MxS16 0 5 (λ i, call_ReadFromFile i ;; mret None).

(** [for (MxS16 i = 0; i < 5; i++) { m_state[i].WriteToFile(p_file); }] *)
Definition write_loop : M SerSt (option unit) :=
  for_MxS16 0 5 (λ i, call_WriteToFile i ;; mret None).

(** [MxResult PizzaMissionState::Serialize(LegoFile* p_file)] *)
Definition Serialize_body : M SerSt MxResult :=
  call_LegoState_Serialize ;;
  rd ← gets (λ s, IsReadMode (s_file s));
  (if rd : bool then read_loop ;; mret tt
   else
     wr ← gets (λ s, IsWriteMode (s_file s));
     if wr : bool then write_loop ;; mret tt
     else mret tt) ;;
  mret SUCCESS.

Definition Serialize (this : t) (p_file : LegoFile) : exec (MxResult * SerSt) :=
  Serialize_body (mkSer this p_file []).

(** [Entry* PizzaMissionState::GetState(MxU8 p_id)]; the state threaded
    through is the list of indices at which [m_state] has been read. *)
Definition GetState_body (this : t) (p_id : MxU8) : M (list Z) (option Z) :=
  found ← for_MxS16 0 5 (λ i reads,
    match array_get (m_state this) i with
    | None => Fault
    | Some e =>
        if m_id e =? p_id
        then Done (Some i, reads ++ [i])
        else Done (None, reads ++ [i])
    end);
  match found with
  | Some i => mret (Some i)
  | None => mret None
  end.

Definition GetState (this : t) (p_id : MxU8) : exec (option Z * list Z) :=
  GetState_body this p_id [].

End WithInterface.
End PizzaMissionState.

(** ** Result codes for the runs *)

Module ResultCodes.

(** The values of the macros of mxtypes.h as the runs below take them. *)
Definition FAILURE : MxResult := -1.

#[export] Instance types : MxTypes := {| SUCCESS := 0 |}.

End ResultCodes.

(** ** The save format of one Entry *)

Module SaveFormat.

(** Modelled from the spec: [PizzaMissionState::Entry] and its routines
    [ReadFromFile] and [WriteToFile] (pizza.h is not among the sources).
    Section 6 gives a fixed-width binary record, a small integer id and
    flag/counter fields, field by field in declared width, without padding or
    delimiters.  The fields are the two that pizza.cpp names: [m_id], which
    it compares with an [MxU8], and [m_unk0x10], to which it assigns
    [0x80000000]; multi-byte fields are little-endian.  A read that finds
    fewer bytes than one record reports failure and touches nothing. *)
Record PizzaEntry := mkEntry { e_id : MxU8; e_unk0x10 : MxU32 }.

Definition put_u8 (v : Z) : list byte := [v mod 256].
Definition put_u32 (v : Z) : list byte :=
  [v mod 256; (v / 256) mod 256; (v / 65536) mod 256; (v / 16777216) mod 256].
Definition get_u32 (b0 b1 b2 b3 : byte) : Z :=
  b0 + 256 * b1 + 65536 * b2 + 16777216 * b3.

Definition encode (e : PizzaEntry) : list byte :=
  put_u8 (e_id e) ++ put_u32 (e_unk0x10 e).

Definition entry_size : nat := 5.

Definition valid (e : PizzaEntry) : Prop :=
  0 ≤ e_id e < 256 ∧ 0 ≤ e_unk0x10 e < 4294967296.

(** Modelled from the spec: [Entry::WriteToFile]. *)
Definition WriteToFile (e : PizzaEntry) (f : LegoFile)
    : MxResult * PizzaEntry * LegoFile :=
  (0, e, mkFile (m_mode f) (m_bytes f ++ encode e)).

(** Modelled from the spec: [Entry::ReadFromFile]. *)
Definition ReadFromFile (e : PizzaEntry) (f : LegoFile)
    : MxResult * PizzaEntry * LegoFile :=
  match m_bytes f with
  | b0 :: b1 :: b2 :: b3 :: b4 :: rest =>
      (0, mkEntry b0 (get_u32 b1 b2 b3 b4), mkFile (m_mode f) rest)
  | _ => (ResultCodes.FAILURE, e, f)
  end.

(** Modelled from the spec: [LegoState::Serialize] (legostate.cpp is not among
    the sources).  Section 6 gives the file image of a MissionState as its
    Entry array alone, so the base class adds nothing to it. *)
Definition base_Serialize (f : LegoFile) : MxResult * LegoFile := (0, f).

#[export] Instance interface : SaveInterface := {|
  Entry := PizzaEntry;
  m_id := e_id;
  Entry_ReadFromFile := ReadFromFile;
  Entry_WriteToFile := WriteToFile;
  LegoState_Serialize := base_Serialize;
|}.

End SaveFormat.

(** ** Objects and globals *)

(** The identity of a heap object: its address. *)
Definition objref := positive.

(** Modelled from the spec: the container id that [Find] takes (mxatom.h is
    not among the sources). *)
Definition MxAtomId := string.

(** ** The tickle manager *)

Module MxTickleManager.

(** Modelled from the spec: [MxTickleManager] (mxticklemanager.h is included
    by pizza.cpp; the class is not among the sources).  Section 4.1: the
    scheduler keeps the registered clients in a list; registering a client
    that is there already does nothing; unregistering removes it; a pass
    walks the list and calls each client's update hook; a client may
    unregister itself from inside its hook, and then the later entries move
    down by one. *)
Abbreviation t := (list objref).

(** Modelled from the spec: [RegisterClient], idempotent; a new client goes
    to the end of the list. *)
Definition RegisterClient (c : objref) (tm : t) : t :=
  if decide (c ∈ tm) then tm else tm ++ [c].

(** Modelled from the spec: [UnregisterClient] removes the client. *)
Definition UnregisterClient (c : objref) (tm : t) : t :=
  filter (λ x, x ≠ c) tm.

(** Modelled from the spec: one pass of the scheduler (its [Tickle], the
    spec's [TickleAll]) from position [cursor] on.  [unregisters c] tells whether the
    hook of [c] calls [UnregisterClient(c)]; when it does, the entry that
    moved into position [cursor] is the next one. *)
Fixpoint tickle_from (steps : nat) (cursor : nat) (unregisters : objref → bool)
    (ticked : list objref) : M t (list objref) :=
  λ tm,
    match tm !! cursor with
    | None => Done (ticked, tm)
    | Some c =>
        match steps with
        | O => Timeout
        | S steps' =>
            if unregisters c
            then tickle_from steps' cursor unregisters (ticked ++ [c])
                   (UnregisterClient c tm)
            else tickle_from steps' (S cursor) unregisters (ticked ++ [c]) tm
        end
    end.

(** Modelled from the spec: a whole pass; it gives the clients it ticked, in
    the order it ticked them. *)
Definition TickleAll (unregisters : objref → bool) : M t (list objref) :=
  λ tm, tickle_from (length tm) 0 unregisters [] tm.

Inductive request :=
| Register (c : objref)
| Unregister (c : objref)
| Pass (unregisters : objref → bool).

(** A sequence of requests; the result lists the passes. *)
Fixpoint run (reqs : list request) : M t (list (list objref)) :=
  match reqs with
  | [] => mret []
  | Register c :: rest => modify (RegisterClient c) ;; run rest
  | Unregister c :: rest => modify (UnregisterClient c) ;; run rest
  | Pass u :: rest =>
      ticked ← TickleAll u;
      later ← run rest;
      mret (ticked :: later)
  end.

End MxTickleManager.

(** ** The state registry *)

Module LegoGameState.

(** Modelled from the spec: [LegoGameState] (legogamestate.h is included by
    pizza.cpp; the class is not among the sources).  Section 4.2:
    [GetState(name)] gives the state object registered under [name] or
    nothing; [CreateState(name)] allocates a new object, registers it under
    [name] and gives it, and fails when [name] is taken. *)
Record t := mk { m_stateArray : gmap string objref; m_next : objref }.

(** Modelled from the spec: [LegoGameState::GetState]. *)
Definition GetState (name : string) (gs : t) : option objref :=
  m_stateArray gs !! name.

(** Modelled from the spec: [LegoGameState::CreateState]. *)
Definition CreateState (name : string) (gs : t) : option objref * t :=
  match m_stateArray gs !! name with
  | Some _ => (None, gs)
  | None =>
      (Some (m_next gs),
       mk (<[name := m_next gs]> (m_stateArray gs)) (Pos.succ (m_next gs)))
  end.

End LegoGameState.

(** ** The globals that Pizza reaches *)

(** Calls to code outside pizza.cpp, in the order they are made. *)
Inductive Call :=
| CallIsleActorCreate
| CallGetState (name : string)
| CallCreateState (name : string)
| CallFind (world : objref) (atom : MxAtomId) (id : Z)
| CallUnregisterClient (c : objref).

(** [GameState()], [TickleManager()], the worlds (of type [W], whatever the
    engine keeps there), and the calls made so far. *)
Record Env (W : Type) := mkEnv {
  gameState : LegoGameState.t;
  tickleManager : MxTickleManager.t;
  worlds : W;
  calls : list Call;
}.
Arguments mkEnv {W}.
Arguments gameState {W}.
Arguments tickleManager {W}.
Arguments worlds {W}.
Arguments calls {W}.

Definition log {W} (c : Call) (e : Env W) : Env W :=
  mkEnv (gameState e) (tickleManager e) (worlds e) (calls e ++ [c]).

(** What pizza.cpp takes from isleactor.h, legoworld.h and isle_actions.h:
    the base-class subobject with its members [m_world] and [m_atomId], the
    base-class [Create], the world's [Find], and the object id of the
    skateboard. *)
Class ActorInterface := {
  LegoWorlds : Type;
  MxDSAction : Type;
  IsleActor : Type;
  m_world : IsleActor → option objref;
  m_atomId : IsleActor → MxAtomId;
  IsleActor_Create :
    MxDSAction → IsleActor → Env LegoWorlds → MxResult * IsleActor * Env LegoWorlds;
  LegoWorld_Find : LegoWorlds → objref → MxAtomId → Z → option objref;
  c_SkateBoard_Actor : Z;
}.

(** ** Pizza *)

Module Pizza.
Section WithInterface.
Context `{MxTypes} `{ActorInterface}.

(** The [IsleActor] subobject and the members that [Pizza] adds.  The
    members [m_unk0x8c], [m_unk0x90] and [m_unk0x98] hold the literals the
    constructor assigns; their types are declared in pizza.h. *)
Record t := mk {
  base : IsleActor;
  m_state : option objref;
  m_entry : option Z;
  m_skateboard : option objref;
  m_act1state : option objref;
  m_unk0x8c : Z;
  m_unk0x90 : Z;
  m_unk0x98 : Z;
}.

(** [this] and the globals. *)
Record St := mkSt { this : t; env : Env LegoWorlds }.

Definition set_base (b : IsleActor) (p : t) : t :=
  mk b (m_state p) (m_entry p) (m_skateboard p) (m_act1state p)
     (m_unk0x8c p) (m_unk0x90 p) (m_unk0x98 p).
Definition set_m_state (v : option objref) (p : t) : t :=
  mk (base p) v (m_entry p) (m_skateboard p) (m_act1state p)
     (m_unk0x8c p) (m_unk0x90 p) (m_unk0x98 p).
Definition set_m_skateboard (v : option objref) (p : t) : t :=
  mk (base p) (m_state p) (m_entry p) v (m_act1state p)
     (m_unk0x8c p) (m_unk0x90 p) (m_unk0x98 p).
Definition set_m_act1state (v : option objref) (p : t) : t :=
  mk (base p) (m_state p) (m_entry p) (m_skateboard p) v
     (m_unk0x8c p) (m_unk0x90 p) (m_unk0x98 p).

Definition assign (f : t → t) : M St unit :=
  modify (λ s, mkSt (f (this s)) (env s)).

(** [Pizza::Pizza()], on top of the constructed base-class subobject. *)
Definition Pizza (b : IsleActor) : t :=
  {| base := b;
     m_state := None;
     m_entry := None;
     m_skateboard := None;
     m_act1state := None;
     m_unk0x8c := -1;
     m_unk0x98 := 0;
     m_unk0x90 := 2147483648 |}.

(** [Pizza::~Pizza()]: [TickleManager()->UnregisterClient(this);], where
    [self] is the address [this]. *)
Definition destroy (self : objref) : M (Env LegoWorlds) unit :=
  modify (λ e,
    log (CallUnregisterClient self)
      (mkEnv (gameState e)
             (MxTickleManager.UnregisterClient self (tickleManager e))
             (worlds e) (calls e))).

(** [IsleActor::Create(p_dsAction)] *)
Definition call_IsleActor_Create (p_dsAction : MxDSAction) : M St MxResult :=
  λ s,
    let '(r, b', e') := IsleActor_Create p_dsAction (base (this s)) (env s) in
    Done (r, mkSt (set_base b' (this s)) (log CallIsleActorCreate e')).

(** [GameState()->GetState(name)] *)
Definition call_GetState (name : string) : M St (option objref) :=
  λ s,
    Done (LegoGameState.GetState name (gameState (env s)),
          mkSt (this s) (log (CallGetState name) (env s))).

(** [GameState()->CreateState(name)] *)
Definition call_CreateState (name : string) : M St (option objref) :=
  λ s,
    let '(p, gs') := LegoGameState.CreateState name (gameState (env s)) in
    Done (p, mkSt (this s)
               (log (CallCreateState name)
                  (mkEnv gs' (tickleManager (env s)) (worlds (env s))
                         (calls (env s))))).

(** [m_world->Find(m_atomId, id)] *)
Definition call_Find (id : Z) : M St (option objref) :=
  λ s,
    match m_world (base (this s)) with
    | None => Fault
    | Some w =>
        let atom := m_atomId (base (this s)) in
        Done (LegoWorld_Find (worlds (env s)) w atom id,
              mkSt (this s) (log (CallFind w atom id) (env s)))
    end.

(** [void Pizza::CreateState()] *)
Definition CreateState : M St unit :=
  p ← call_GetState "PizzaMissionState";
  assign (set_m_state p) ;;
  st ← gets (λ s, m_state (this s));
  match st with
  | None =>
      p' ← call_CreateState "PizzaMissionState";
      assign (set_m_state p')
  | Some _ => mret tt
  end ;;
  a ← call_GetState "Act1State";
  assign (set_m_act1state a) ;;
  act ← gets (λ s, m_act1state (this s));
  match act with
  | None =>
      a' ← call_CreateState "Act1State";
      assign (set_m_act1state a')
  | Some _ => mret tt
  end.

(** [MxResult Pizza::Create(MxDSAction& p_dsAction)] *)
Definition Create (p_dsAction : MxDSAction) : M St MxResult :=
  result ← call_IsleActor_Create p_dsAction;
  (if result =? SUCCESS then
     CreateState ;;
     sk ← call_Find c_SkateBoard_Actor;
     assign (set_m_skateboard sk)
   else mret tt) ;;
  mret result.

(** [MxLong Pizza::HandleClick()] *)
Definition HandleClick : M St MxLong := mret 0.

(** [MxLong Pizza::HandlePathStruct(LegoPathStructNotificationParam&)] *)
Definition HandlePathStruct {P : Type} (_ : P) : M St MxLong := mret 0.

(** [MxResult Pizza::Tickle()] *)
Definition Tickle : M St MxResult := mret SUCCESS.

(** [MxLong Pizza::HandleEndAction(MxEndActionNotificationParam&)] *)
Definition HandleEndAction {P : Type} (_ : P) : M St MxLong := mret 0.

End WithInterface.
End Pizza.

(** ** Helicopter *)

Module Helicopter.

(** [const char* Helicopter::ClassName() const] *)
Definition ClassName : string := "Helicopter".

(** [MxBool Helicopter::IsA(const char* p_name) const]; the base-class
    [IslePathActor::IsA] is declared in islepathactor.h. *)
Definition IsA (IslePathActor_IsA : string → MxBool) (p_name : string) : MxBool :=
  of_bool ((strcmp p_name ClassName =? 0) || negb (IslePathActor_IsA p_name =? 0)).

End Helicopter.

(** ** A scene to run Pizza in *)

Module Scene.

(** Modelled from the spec: [IsleActor::Create] and [LegoWorld::Find]
    (isleactor.cpp and legoworld.cpp are not among the sources).  Section
    4.4: creation binds the actor to its world and fails when the world
    lacks the placement data; section 6: [Find] resolves an object of a
    container by its id.  The action says whether the placement data are
    there; the worlds hold their objects by container and id. *)
Record Actor := mkActor { a_world : option objref; a_atomId : MxAtomId }.

Definition the_world : objref := 1%positive.

Definition Create_base (placed : bool) (b : Actor) (e : Env (gmap (string * Z) objref))
    : MxResult * Actor * Env (gmap (string * Z) objref) :=
  if placed then (0, mkActor (Some the_world) (a_atomId b), e)
  else (ResultCodes.FAILURE, b, e).

Definition Find (ws : gmap (string * Z) objref) (w : objref) (atom : MxAtomId)
    (id : Z) : option objref :=
  ws !! (atom, id).

#[export] Instance interface : ActorInterface := {|
  LegoWorlds := gmap (string * Z) objref;
  MxDSAction := bool;
  IsleActor := Actor;
  m_world := a_world;
  m_atomId := a_atomId;
  IsleActor_Create := Create_base;
  LegoWorld_Find := Find;
  c_SkateBoard_Actor := 33;
|}.

End Scene.

(** ** What the loops and passes amount to *)

(** A routine that may change the object and the file it is given, on each
    element of a list in turn, the file handed on from one to the next. *)
Fixpoint thread {E F R} (op : E → F → R * E * F) (es : list E) (f : F)
    : list E * F :=
  match es with
  | [] => ([], f)
  | e :: es' =>
      let '(_, e', f1) := op e f in
      let '(es'', f2) := thread op es' f1 in
      (e' :: es'', f2)
  end.

Section Folds.
Context `{SaveInterface}.

Definition read_entries : list Entry → LegoFile → list Entry * LegoFile :=
  thread Entry_ReadFromFile.

Definition write_entries : list Entry → LegoFile → list Entry * LegoFile :=
  thread Entry_WriteToFile.

(** What [GetState] gives for the key [p_id]: nothing when no entry has the
    key, and otherwise the lowest index whose entry has it. *)
Definition first_match (es : list Entry) (p_id : MxU8) (r : option Z) : Prop :=
  match r with
  | None => ∀ j e, es !! j = Some e → m_id e ≠ p_id
  | Some i =>
      0 ≤ i < 5 ∧
      (∃ e, es !! Z.to_nat i = Some e ∧ m_id e = p_id) ∧
      (∀ j e, (j < Z.to_nat i)%nat → es !! j = Some e → m_id e ≠ p_id)
  end.

End Folds.

(** The registered clients after one request, told from the request alone:
    a pass leaves those that did not unregister themselves. *)
Definition registered_after (tm : list objref) (r : MxTickleManager.request)
    : list objref :=
  match r with
  | MxTickleManager.Register c => if decide (c ∈ tm) then tm else tm ++ [c]
  | MxTickleManager.Unregister c => filter (λ x, x ≠ c) tm
  | MxTickleManager.Pass u => filter (λ x, u x = false) tm
  end.

Definition registered (tm : list objref) (reqs : list MxTickleManager.request)
    : list objref :=
  foldl registered_after tm reqs.

(** For each pass of a sequence of requests, the clients registered when the
    pass starts, in the order of their registration. *)
Fixpoint due (tm : list objref) (reqs : list MxTickleManager.request)
    : list (list objref) :=
  match reqs with
  | [] => []
  | MxTickleManager.Pass u :: rest =>
      tm :: due (registered_after tm (MxTickleManager.Pass u)) rest
  | r :: rest => due (registered_after tm r) rest
  end.

Definition registers (c : objref) (r : MxTickleManager.request) : Prop :=
  match r with
  | MxTickleManager.Register c' => c' = c
  | _ => False
  end.

(** The calls of one lookup-then-create on the registry [gs]: the lookup,
    and the creation when the lookup finds nothing. *)
Definition protocol (name : string) (gs : LegoGameState.t) : list Call :=
  CallGetState name ::
  match LegoGameState.GetState name gs with
  | Some _ => []
  | None => [CallCreateState name]
  end.

(** The object that one lookup-then-create obtains, and the registry
    after it. *)
Definition obtain (name : string) (gs : LegoGameState.t)
    : option objref * LegoGameState.t :=
  match LegoGameState.GetState name gs with
  | Some p => (Some p, gs)
  | None => LegoGameState.CreateState name gs
  end.


(** What [Pizza::CreateState] leaves behind in [s'], run on [s]. *)
Definition CreateState_contract `{ActorInterface} (s s' : Pizza.St) : Prop :=
  let gs := gameState (Pizza.env s) in
  let gs' := gameState (Pizza.env s') in
  calls (Pizza.env s') =
    calls (Pizza.env s) ++ protocol "PizzaMissionState" gs
                        ++ protocol "Act1State" gs ∧
  is_Some (Pizza.m_state (Pizza.this s')) ∧
  Pizza.m_state (Pizza.this s') = LegoGameState.GetState "PizzaMissionState" gs' ∧
  is_Some (Pizza.m_act1state (Pizza.this s')) ∧
  Pizza.m_act1state (Pizza.this s') = LegoGameState.GetState "Act1State" gs' ∧
  (∀ p, LegoGameState.GetState "PizzaMissionState" gs = Some p →
     Pizza.m_state (Pizza.this s') = Some p) ∧
  (∀ p, LegoGameState.GetState "Act1State" gs = Some p →
     Pizza.m_act1state (Pizza.this s') = Some p).

(** What the destructor of the Pizza at address [self] leaves behind in
    [e'], run on [e]: the one call, the client gone from the list, and no
    tick for it in any later run that does not register it again. *)
Definition destroy_contract {W} (self : objref) (e e' : Env W) : Prop :=
  calls e' = calls e ++ [CallUnregisterClient self] ∧
  tickleManager e' = MxTickleManager.UnregisterClient self (tickleManager e) ∧
  (self ∉ tickleManager e') ∧
  (∀ reqs, Forall (λ r, ¬ registers self r) reqs →
     ∃ passes tm',
       MxTickleManager.run reqs (tickleManager e') = Done (passes, tm') ∧
       (self ∉ tm') ∧ Forall (λ p, self ∉ p) passes).

(** ** Sample data on the save format *)

Module Samples.
Import SaveFormat.

Definition sample : PizzaMissionState.t :=
  PizzaMissionState.mk 1
    [mkEntry 1 0; mkEntry 2 2147483648; mkEntry 3 7;
     mkEntry 4 4294967295; mkEntry 3 256].

Definition stale : PizzaMissionState.t :=
  PizzaMissionState.mk 9
    [mkEntry 77 5; mkEntry 77 5; mkEntry 77 5; mkEntry 77 5; mkEntry 77 5].

(** The keys of [sample], everything else different. *)
Definition same_keys : PizzaMissionState.t :=
  PizzaMissionState.mk 0
    [mkEntry 1 9; mkEntry 2 9; mkEntry 3 9; mkEntry 4 9; mkEntry 3 9].

(** The 25 bytes of [sample]. *)
Definition sample_image : list byte :=
  [1; 0; 0; 0; 0;
   2; 0; 0; 0; 128;
   3; 7; 0; 0; 0;
   4; 255; 255; 255; 255;
   3; 0; 1; 0; 0].

(** A stream cut after 7 bytes: one record and two bytes of the next. *)
Definition cut_image : list byte := [1; 0; 0; 0; 0; 2; 0].

(** A fresh Pizza in a scene with no state object and no skateboard. *)
Definition pizza0 : @Pizza.St Scene.interface :=
  @Pizza.mkSt Scene.interface
    (@Pizza.Pizza Scene.interface (Scene.mkActor None "isle"))
    (mkEnv (LegoGameState.mk ∅ 1%positive) [] ∅ []).

(** A fresh Pizza in a scene that has the skateboard, at 7. *)
Definition pizza_by_skateboard : @Pizza.St Scene.interface :=
  @Pizza.mkSt Scene.interface
    (@Pizza.Pizza Scene.interface (Scene.mkActor None "isle"))
    (mkEnv (LegoGameState.mk ∅ 1%positive) []
           {[("isle", 33) := 7%positive]} []).

(** [pizza0] after [CreateState]: the two states created, at 1 and 2. *)
Definition pizza1 : @Pizza.St Scene.interface :=
  @Pizza.mkSt Scene.interface
    (@Pizza.set_m_act1state Scene.interface (Some 2%positive)
       (@Pizza.set_m_state Scene.interface (Some 1%positive)
          (@Pizza.this Scene.interface pizza0)))
    (mkEnv (LegoGameState.mk
              (<["Act1State" := 2%positive]>
                 (<["PizzaMissionState" := 1%positive]> ∅))
              3%positive) [] ∅
       [CallGetState "PizzaMissionState"; CallCreateState "PizzaMissionState";
        CallGetState "Act1State"; CallCreateState "Act1State"]).

End Samples.

(** ** Pizza::FUN_10038220 *)

(** Conversion to the type of an [MxU8] parameter. *)
Definition to_MxU8 (z : Z) : MxU8 := z mod 256.

(** [flags &= ~mask] on an [MxU32]. *)
Definition clear_bits (flags : MxU32) (mask : Z) : MxU32 :=
  Z.land flags (Z.lnot mask) mod 4294967296.

(** What [Pizza::FUN_10038220] takes from pizza.h and isle.h beyond the
    above: the assignment to the member [m_unk0x10] of an [Entry], and the
    flag [Isle::c_playMusic]. *)
Class MissionInterface `{SaveInterface} := {
  set_m_unk0x10 : Z → Entry → Entry;
  c_playMusic : Z;
}.

Module Mission.
Section WithInterface.
Context `{MxTypes} `{SaveInterface} `{!MissionInterface} `{ActorInterface}.

(** The calls on [AnimationManager()], in the order they are made. *)
Inductive AnimCall :=
| AnimFUN_10064740 (p : option objref)
| AnimEnableCamAnims (b : MxBool)
| AnimFUN_1005f6d0 (b : MxBool).

(** [this] and what [FUN_10038220] reaches: the actor id that
    [GameState()->GetActorId()] gives, the [PizzaMissionState] objects by
    address, the member [m_unk0x018] of the [Act1State] objects by address,
    the global [g_isleFlags], and the calls on the animation manager.
    [m_entry] points into the array of the object [m_state] points to. *)
Record Game := mkGame {
  pizza : Pizza.t;
  actorId : Z;
  missions : gmap objref PizzaMissionState.t;
  act1_unk0x018 : gmap objref Z;
  g_isleFlags : MxU32;
  anim : list AnimCall;
}.

Definition set_pizza (f : Pizza.t → Pizza.t) (g : Game) : Game :=
  mkGame (f (pizza g)) (actorId g) (missions g) (act1_unk0x018 g)
         (g_isleFlags g) (anim g).

Definition set_m_entry (v : option Z) (p : Pizza.t) : Pizza.t :=
  Pizza.mk (Pizza.base p) (Pizza.m_state p) v (Pizza.m_skateboard p)
           (Pizza.m_act1state p) (Pizza.m_unk0x8c p) (Pizza.m_unk0x90 p)
           (Pizza.m_unk0x98 p).

Definition set_m_unk0x8c (v : Z) (p : Pizza.t) : Pizza.t :=
  Pizza.mk (Pizza.base p) (Pizza.m_state p) (Pizza.m_entry p)
           (Pizza.m_skateboard p) (Pizza.m_act1state p) v (Pizza.m_unk0x90 p)
           (Pizza.m_unk0x98 p).

(** A call on [AnimationManager()]. *)
Definition call_anim (c : AnimCall) : M Game unit :=
  modify (λ g, mkGame (pizza g) (actorId g) (missions g) (act1_unk0x018 g)
                      (g_isleFlags g) (anim g ++ [c])).

(** The object that [m_state] points to: none through [NULL] or through a
    pointer to no [PizzaMissionState]. *)
Definition deref_m_state : M Game (objref * PizzaMissionState.t) := λ g,
  match Pizza.m_state (pizza g) with
  | None => Fault
  | Some p =>
      match missions g !! p with
      | None => Fault
      | Some st => Done ((p, st), g)
      end
  end.

Definition store_mission (p : objref) (st : PizzaMissionState.t) : M Game unit :=
  modify (λ g, mkGame (pizza g) (actorId g) (<[p := st]> (missions g))
                      (act1_unk0x018 g) (g_isleFlags g) (anim g)).

(** A call that reads only: its outcome, the game as it is. *)
Definition reading {A R} (r : exec (A * R)) : M Game A := λ g,
  match r with
  | Done (a, _) => Done (a, g)
  | Fault => Fault
  | Timeout => Timeout
  end.

Definition undefined {A} : M Game A := λ _, Fault.

(** [m_state->GetState(p_id)] *)
Definition call_GetState (p_id : MxU8) : M Game (option Z) :=
  o ← deref_m_state;
  reading (PizzaMissionState.GetState o.2 p_id).

(** [m_state->m_unk0x0c = v;] *)
Definition assign_m_unk0x0c (v : MxU32) : M Game unit :=
  o ← deref_m_state;
  store_mission o.1 (PizzaMissionState.mk v (PizzaMissionState.m_state o.2)).

(** [m_act1state->m_unk0x018 = v;] *)
Definition assign_m_unk0x018 (v : Z) : M Game unit := λ g,
  match Pizza.m_act1state (pizza g) with
  | None => Fault
  | Some a =>
      match act1_unk0x018 g !! a with
      | None => Fault
      | Some _ =>
          Done (tt, mkGame (pizza g) (actorId g) (missions g)
                           (<[a := v]> (act1_unk0x018 g)) (g_isleFlags g)
                           (anim g))
      end
  end.

(** [m_entry->m_unk0x10 = v;] *)
Definition assign_m_unk0x10 (v : Z) : M Game unit :=
  e ← gets (λ g, Pizza.m_entry (pizza g));
  match e with
  | None => undefined
  | Some i =>
      o ← deref_m_state;
      match array_get (PizzaMissionState.m_state o.2) i with
      | None => undefined
      | Some en =>
          store_mission o.1
            (PizzaMissionState.set_entry i (set_m_unk0x10 v en) o.2)
      end
  end.

(** [void Pizza::FUN_10038fe0(MxU32 p_objectId, MxBool)] *)
Definition FUN_10038fe0 (p_objectId : MxU32) (b : MxBool) : M Game unit :=
  mret tt.

(** [void Pizza::FUN_10038220(MxU32 p_objectId)] *)
Definition FUN_10038220 (p_objectId : MxU32) : M Game unit :=
  call_anim (AnimFUN_10064740 None) ;;
  id ← gets actorId;
  e ← call_GetState (to_MxU8 id);
  modify (set_pizza (set_m_entry e)) ;;
  assign_m_unk0x0c 1 ;;
  assign_m_unk0x018 3 ;;
  assign_m_unk0x10 2147483648 ;;
  modify (λ g, mkGame (pizza g) (actorId g) (missions g) (act1_unk0x018 g)
                      (clear_bits (g_isleFlags g) c_playMusic) (anim g)) ;;
  call_anim (AnimEnableCamAnims 0) ;;
  call_anim (AnimFUN_1005f6d0 0) ;;
  FUN_10038fe0 p_objectId 0 ;;
  modify (set_pizza (set_m_unk0x8c (-1))).

(** [void Pizza::FUN_100382b0()] and [void Pizza::FUN_10038380()] *)
Definition FUN_100382b0 : M Game unit := mret tt.
Definition FUN_10038380 : M Game unit := mret tt.

(** The game that [FUN_10038220] leaves when [m_state] points to the object
    [st] at [p], [m_act1state] to the object at [a], and entry [i] of [st],
    which is [en], is the one for the actor id. *)
Definition started (g : Game) (p a : objref) (st : PizzaMissionState.t)
    (i : Z) (en : Entry) : Game :=
  mkGame (set_m_unk0x8c (-1) (set_m_entry (Some i) (pizza g)))
         (actorId g)
         (<[p := PizzaMissionState.mk 1
                   (<[Z.to_nat i := set_m_unk0x10 2147483648 en]>
                      (PizzaMissionState.m_state st))]> (missions g))
         (<[a := 3]> (act1_unk0x018 g))
         (clear_bits (g_isleFlags g) c_playMusic)
         (anim g ++ [AnimFUN_10064740 None; AnimEnableCamAnims 0;
                     AnimFUN_1005f6d0 0]).

(** The pointers of [this] are good: [m_state] points to the
    [PizzaMissionState] [st] at [p], which has its 5 entries, and
    [m_act1state] to an [Act1State] at [a]. *)
Definition bound_to (g : Game) (p a : objref) (st : PizzaMissionState.t) : Prop :=
  Pizza.m_state (pizza g) = Some p ∧
  missions g !! p = Some st ∧
  length (PizzaMissionState.m_state st) = 5%nat ∧
  Pizza.m_act1state (pizza g) = Some a ∧
  is_Some (act1_unk0x018 g !! a).

End WithInterface.
End Mission.

(** ** Sample data for FUN_10038220 *)

Module MissionSamples.
Import SaveFormat.

(** The assignment to [m_unk0x10] on the record of the save format, and a
    value for the flag [Isle::c_playMusic], which isle.h declares. *)
#[export] Instance interface : @MissionInterface SaveFormat.interface := {|
  set_m_unk0x10 := λ v e, mkEntry (e_id e) v;
  c_playMusic := 2;
|}.

(** A base class that reports success and binds no world. *)
Definition Create_unbound (a : unit) (b : Scene.Actor)
    (e : Env (gmap (string * Z) objref))
    : MxResult * Scene.Actor * Env (gmap (string * Z) objref) :=
  (0, b, e).

Definition unbound : ActorInterface := {|
  LegoWorlds := gmap (string * Z) objref;
  MxDSAction := unit;
  IsleActor := Scene.Actor;
  m_world := Scene.a_world;
  m_atomId := Scene.a_atomId;
  IsleActor_Create := Create_unbound;
  LegoWorld_Find := Scene.Find;
  c_SkateBoard_Actor := 33;
|}.

Definition pizza_unbound : @Pizza.St unbound :=
  @Pizza.mkSt unbound
    (@Pizza.Pizza unbound (Scene.mkActor None "isle"))
    (mkEnv (LegoGameState.mk ∅ 1%positive) [] ∅ []).

(** A Pizza whose two state members point to the objects at 1 and 2. *)
Definition bound_pizza : @Pizza.t Scene.interface :=
  @Pizza.set_m_act1state Scene.interface (Some 2%positive)
    (@Pizza.set_m_state Scene.interface (Some 1%positive)
       (@Pizza.Pizza Scene.interface (Scene.mkActor None "isle"))).

(** The mission state [Samples.sample] at 1, an [Act1State] at 2, the music
    flag and two others set; [id] is the actor id. *)
Definition game (id : Z) : @Mission.Game SaveFormat.interface Scene.interface :=
  @Mission.mkGame SaveFormat.interface Scene.interface
    bound_pizza id {[1%positive := Samples.sample]} {[2%positive := 0]} 7 [].

(** A Pizza fresh from its constructor, and no state object anywhere. *)
Definition fresh_game : @Mission.Game SaveFormat.interface Scene.interface :=
  @Mission.mkGame SaveFormat.interface Scene.interface
    (@Pizza.Pizza Scene.interface (Scene.mkActor None "isle")) 3 ∅ ∅ 7 [].

End MissionSamples.

(** Run the code up to the next access to memory. *)
Ltac run_game :=
  repeat (progress
    (unfold mbind, M_bind, Mission.call_anim, modify, gets,
       Mission.call_GetState, Mission.deref_m_state, Mission.reading,
       Mission.undefined, Mission.assign_m_unk0x0c,
       Mission.assign_m_unk0x018, Mission.assign_m_unk0x10,
       Mission.store_mission, Mission.FUN_10038fe0, mret, M_ret,
       Mission.set_pizza;
     cbn -[PizzaMissionState.GetState insert lookup clear_bits])).

(** Run the code up to the next call on the registry. *)
Ltac run_registry :=
  cbn -[LegoGameState.GetState LegoGameState.CreateState].

(** * Properties *)

(** ** Integers, arrays and loops *)

Lemma wrapS16_id (z : Z) : -32768 ≤ z < 32768 → wrapS16 z = z.
Proof.
  intros Hz. unfold wrapS16.
  rewrite Z.mod_small by lia. lia.
Qed.

Lemma array_get_Some {A} (a : list A) (i : Z) (x : A) :
  array_get a i = Some x ↔ 0 ≤ i ∧ a !! Z.to_nat i = Some x.
Proof.
  unfold array_get. destruct (Z.ltb_spec i 0); split.
  - discriminate.
  - intros [? _]. lia.
  - auto.
  - intros [_ ?]. done.
Qed.

Lemma array_get_in_bounds {A} (a : list A) (i : Z) :
  0 ≤ i < Z.of_nat (length a) → is_Some (array_get a i).
Proof.
  intros Hi. unfold array_get.
  destruct (Z.ltb_spec i 0); [lia|].
  apply lookup_lt_is_Some. lia.
Qed.

Lemma mbind_Done {St A B} (m : M St A) (k : A → M St B) (s s' : St) (a : A) :
  m s = Done (a, s') → (m ≫= k) s = k a s'.
Proof. intros Hm. unfold mbind, M_bind. by rewrite Hm. Qed.

(** The rule for a counting loop, with termination: an invariant kept by
    every iteration that falls through gives the postcondition, and so does
    every early return; the loop neither faults nor runs out of steps. *)
Lemma for_steps_rule {St R} (Inv : Z → St → Prop) (Post : option R → St → Prop)
    (bound : Z) (body : Z → M St (option R)) :
  bound ≤ 32767 →
  (∀ i s, -32768 ≤ i < bound → Inv i s →
     match body i s with
     | Done (None, s') => Inv (i + 1) s'
     | Done (Some r, s') => Post (Some r) s'
     | _ => False
     end) →
  (∀ s, Inv bound s → Post None s) →
  ∀ steps i s,
    -32768 ≤ i ≤ bound → (Z.to_nat (bound - i) ≤ steps)%nat → Inv i s →
    ∃ r s', for_steps steps i bound body s = Done (r, s') ∧ Post r s'.
Proof.
  intros Hbound Hbody Hexit steps.
  induction steps as [|steps IH]; intros i s Hi Hsteps Hinv.
  - assert (i = bound) as -> by lia.
    cbn. rewrite Z.ltb_irrefl. eauto.
  - cbn [for_steps]. destruct (Z.ltb_spec i bound) as [Hlt|Hge].
    + specialize (Hbody i s ltac:(lia) Hinv).
      destruct (body i s) as [[[r|] s']| |]; try done.
      * eauto.
      * rewrite wrapS16_id by lia. apply IH; [lia|lia|done].
    + assert (i = bound) as -> by lia. eauto.
Qed.

Lemma for_MxS16_rule {St R} (Inv : Z → St → Prop) (Post : option R → St → Prop)
    (start bound : Z) (body : Z → M St (option R)) (s : St) :
  -32768 ≤ start ≤ bound → bound ≤ 32767 →
  (∀ i s, start ≤ i < bound → Inv i s →
     match body i s with
     | Done (None, s') => Inv (i + 1) s'
     | Done (Some r, s') => Post (Some r) s'
     | _ => False
     end) →
  (∀ s, Inv bound s → Post None s) →
  Inv start s →
  ∃ r s', for_MxS16 start bound body s = Done (r, s') ∧ Post r s'.
Proof.
  intros Hstart Hbound Hbody Hexit Hinv. unfold for_MxS16.
  apply (for_steps_rule (λ i s, start ≤ i ∧ Inv i s) Post).
  - done.
  - intros i s0 Hi [Hsi Hinv0].
    specialize (Hbody i s0 ltac:(lia) Hinv0).
    destruct (body i s0) as [[[r|] s']| |]; try done. split; [lia|done].
  - intros s0 [_ ?]. auto.
  - lia.
  - lia.
  - split; [lia|done].
Qed.

(** ** PizzaMissionState::GetState *)

Section GetState.
Context `{MxTypes} `{SaveInterface}.

(** C3.  On an array of 5 entries [GetState(p_id)] returns, having read
    [m_state] at indices from 0 to 4 only: [NULL] when no entry has
    [m_id == p_id], and otherwise the pointer to the entry of lowest index
    that has. *)
Theorem GetState_first_match (this : PizzaMissionState.t) (p_id : MxU8) :
  length (PizzaMissionState.m_state this) = 5%nat →
  ∃ r reads,
    PizzaMissionState.GetState this p_id = Done (r, reads) ∧
    Forall (λ i, 0 ≤ i < 5) reads ∧
    first_match (PizzaMissionState.m_state this) p_id r.
Proof.
  intros Hlen.
  unfold PizzaMissionState.GetState, PizzaMissionState.GetState_body.
  set (es := PizzaMissionState.m_state this) in *.
  set (body := λ (i : Z) (reads : list Z),
         match array_get es i with
         | Some e =>
             if m_id e =? p_id
             then Done (Some i, reads ++ [i])
             else Done (None, reads ++ [i])
         | None => Fault
         end).
  destruct (for_MxS16_rule
    (λ i reads, Forall (λ k, 0 ≤ k < 5) reads ∧
                ∀ j e, (j < Z.to_nat i)%nat → es !! j = Some e → m_id e ≠ p_id)
    (λ r reads, Forall (λ k, 0 ≤ k < 5) reads ∧ first_match es p_id r)
    0 5 body []) as (r & reads & Hrun & Hreads & Hr).
  - lia.
  - lia.
  - intros i reads Hi [Hin Hbefore]. unfold body.
    destruct (array_get_in_bounds es i ltac:(lia)) as [e He].
    rewrite He. apply array_get_Some in He as [_ He].
    assert (Forall (λ k, 0 ≤ k < 5) (reads ++ [i])) as Hin'.
    { apply Forall_app. split; [done|]. apply Forall_singleton. lia. }
    destruct (Z.eqb_spec (m_id e) p_id) as [Heq|Hne].
    + split; [done|]. cbn. split; [lia|]. split; [eauto|done].
    + split; [done|]. intros j e' Hj He'.
      destruct (decide (j = Z.to_nat i)) as [->|Hji].
      * congruence.
      * apply (Hbefore j e'); [lia|done].
    - intros reads [Hin Hbefore]. split; [done|]. cbn. intros j e He.
      apply (Hbefore j e); [|done].
      apply lookup_lt_Some in He. lia.
    - split; [constructor|]. intros j e Hj. lia.
    - exists r, reads. split; [|done].
      etrans; [exact (mbind_Done _ _ _ _ _ Hrun)|]. by destruct r.
Qed.

End GetState.

(** ** PizzaMissionState::Serialize *)

Section Thread.
Context {E F R : Type} (op : E → F → R * E * F).

Lemma thread_length (es : list E) (f : F) :
  length (thread op es f).1 = length es.
Proof.
  revert f. induction es as [|e es IH]; intros f; [done|].
  cbn. destruct (op e f) as [[r e'] f1]. specialize (IH f1).
  destruct (thread op es f1) as [es' f2]. cbn in *. by rewrite IH.
Qed.

Lemma thread_snoc (es : list E) (e : E) (f : F) :
  thread op (es ++ [e]) f =
  (let '(done, f1) := thread op es f in
   let '(_, e', f2) := op e f1 in
   (done ++ [e'], f2)).
Proof.
  revert f. induction es as [|e0 es IH]; intros f; cbn.
  - by destruct (op e f) as [[r e'] f1].
  - destruct (op e0 f) as [[r0 e0'] f1]. rewrite IH.
    destruct (thread op es f1) as [done f2].
    by destruct (op e f2) as [[r e'] f3].
Qed.

End Thread.

Section Serialize.
Context `{MxTypes} `{SaveInterface}.
Import PizzaMissionState.

(** Either loop of [Serialize]: the routine [op] runs on the entries 0 to 4
    in this order, each on the file the one before left, and nothing else
    touches [this] or the file. *)
Lemma entry_loop_spec (op : Entry → LegoFile → MxResult * Entry * LegoFile)
    (C : Z → Call) (call : Z → M SerSt MxResult) (s : SerSt) :
  (∀ i s, call i s =
     match array_get (m_state (s_this s)) i with
     | None => Fault
     | Some e =>
         let '(r, e', f') := op e (s_file s) in
         Done (r, mkSer (set_entry i e' (s_this s)) f' (s_calls s ++ [C i]))
     end) →
  length (m_state (s_this s)) = 5%nat →
  for_MxS16 0 5 (λ i, call i ;; mret (@None unit)) s =
  Done (None,
        mkSer (mk (m_unk0x0c (s_this s))
                  (thread op (m_state (s_this s)) (s_file s)).1)
              (thread op (m_state (s_this s)) (s_file s)).2
              (s_calls s ++ map C (seqZ 0 5))).
Proof.
  intros Hcall Hlen.
  destruct s as [[u0 es0] f0 calls0]. cbn in *.
  pose (at_index := λ (i : Z),
    mkSer (mk u0 ((thread op (take (Z.to_nat i) es0) f0).1
                  ++ drop (Z.to_nat i) es0))
          (thread op (take (Z.to_nat i) es0) f0).2
          (calls0 ++ map C (seqZ 0 i))).
  destruct (for_MxS16_rule
    (λ i s', s' = at_index i)
    (λ (r : option unit) s', r = None ∧ s' = at_index 5)
    0 5 (λ i, call i ;; mret (@None unit)) (mkSer (mk u0 es0) f0 calls0))
    as (r & s' & Hrun & -> & ->).
  - lia.
  - lia.
  - intros i s Hi ->. unfold mbind, M_bind. rewrite Hcall.
    unfold at_index at 1. cbn [s_this s_file s_calls m_state m_unk0x0c].
    set (n := Z.to_nat i).
    assert (n < length es0)%nat as Hn by lia.
    destruct (lookup_lt_is_Some_2 es0 n Hn) as [e He].
    pose proof (thread_length op (take n es0) f0) as Hdone.
    rewrite length_take_le in Hdone by lia.
    assert (array_get ((thread op (take n es0) f0).1 ++ drop n es0) i = Some e)
      as ->.
    { apply array_get_Some. split; [lia|]. fold n.
      rewrite lookup_app_r by lia. rewrite Hdone, Nat.sub_diag.
      rewrite lookup_drop. by rewrite Nat.add_0_r. }
    unfold at_index. replace (Z.to_nat (i + 1)) with (S n) by lia.
    rewrite (take_S_r es0 n e He), thread_snoc. fold n.
    destruct (thread op (take n es0) f0) as [done f1]. cbn in Hdone |- *.
    destruct (op e f1) as [[r e'] f2]. cbn.
    unfold mret, M_ret. f_equal. f_equal. unfold set_entry. cbn. f_equal.
    + f_equal. fold n.
      rewrite (drop_S es0 e n He).
      rewrite insert_app_r_alt by lia. rewrite Hdone, Nat.sub_diag. cbn.
      by rewrite <- app_assoc.
    + rewrite <- app_assoc. f_equal.
      rewrite (seqZ_app 0 i 1) by lia. by rewrite map_app.
  - intros s ->. done.
  - unfold at_index. cbn. by rewrite app_nil_r.
  - etrans; [exact Hrun|]. unfold at_index.
    change (Z.to_nat 5) with 5%nat.
    rewrite <- Hlen, take_ge, drop_ge by lia.
    by rewrite app_nil_r.
Qed.

Lemma read_loop_spec (s : SerSt) :
  length (m_state (s_this s)) = 5%nat →
  read_loop s =
  Done (None,
        mkSer (mk (m_unk0x0c (s_this s))
                  (read_entries (m_state (s_this s)) (s_file s)).1)
              (read_entries (m_state (s_this s)) (s_file s)).2
              (s_calls s ++ map CallReadFromFile (seqZ 0 5))).
Proof. intros Hlen. by apply entry_loop_spec. Qed.

Lemma write_loop_spec (s : SerSt) :
  length (m_state (s_this s)) = 5%nat →
  write_loop s =
  Done (None,
        mkSer (mk (m_unk0x0c (s_this s))
                  (write_entries (m_state (s_this s)) (s_file s)).1)
              (write_entries (m_state (s_this s)) (s_file s)).2
              (s_calls s ++ map CallWriteToFile (seqZ 0 5))).
Proof. intros Hlen. by apply entry_loop_spec. Qed.

Lemma Serialize_read_mode (this : t) (f f1 : LegoFile) (r0 : MxResult) :
  length (m_state this) = 5%nat →
  LegoState_Serialize f = (r0, f1) →
  IsReadMode f1 = true →
  Serialize this f =
  Done (SUCCESS,
        mkSer (mk (m_unk0x0c this) (read_entries (m_state this) f1).1)
              (read_entries (m_state this) f1).2
              (CallLegoStateSerialize :: map CallReadFromFile (seqZ 0 5))).
Proof.
  intros Hlen Hbase Hmode.
  unfold Serialize, Serialize_body, mbind, M_bind, call_LegoState_Serialize, gets.
  cbn. rewrite Hbase. cbn. rewrite Hmode.
  by rewrite read_loop_spec.
Qed.

Lemma Serialize_write_mode (this : t) (f f1 : LegoFile) (r0 : MxResult) :
  length (m_state this) = 5%nat →
  LegoState_Serialize f = (r0, f1) →
  IsWriteMode f1 = true →
  Serialize this f =
  Done (SUCCESS,
        mkSer (mk (m_unk0x0c this) (write_entries (m_state this) f1).1)
              (write_entries (m_state this) f1).2
              (CallLegoStateSerialize :: map CallWriteToFile (seqZ 0 5))).
Proof.
  intros Hlen Hbase Hmode.
  assert (IsReadMode f1 = false) as Hrd.
  { unfold IsReadMode, IsWriteMode in *. by destruct (m_mode f1). }
  unfold Serialize, Serialize_body, mbind, M_bind, call_LegoState_Serialize, gets.
  cbn. rewrite Hbase. cbn. rewrite Hrd. cbn. rewrite Hmode.
  by rewrite write_loop_spec.
Qed.

Lemma Serialize_no_mode (this : t) (f f1 : LegoFile) (r0 : MxResult) :
  LegoState_Serialize f = (r0, f1) →
  IsReadMode f1 = false →
  IsWriteMode f1 = false →
  Serialize this f = Done (SUCCESS, mkSer this f1 [CallLegoStateSerialize]).
Proof.
  intros Hbase Hrd Hwr.
  unfold Serialize, Serialize_body, mbind, M_bind, call_LegoState_Serialize, gets.
  cbn. rewrite Hbase. cbn. rewrite Hrd. cbn. by rewrite Hwr.
Qed.

(** C7.  On its 5 entries [Serialize] first calls [LegoState::Serialize] and
    then, going by the mode of the file as that call left it: in read mode
    [ReadFromFile] on [m_state[0]], ..., [m_state[4]], one call each, in
    this order; in write mode [WriteToFile] likewise.  Each call gets the
    file as the call before left it, so nothing comes between two records,
    and the entries and the file end up as these five calls left them. *)
Theorem Serialize_five_in_index_order (this : t) (f f1 : LegoFile) (r0 : MxResult) :
  length (m_state this) = 5%nat →
  LegoState_Serialize f = (r0, f1) →
  (IsReadMode f1 = true →
   ∃ s', Serialize this f = Done (SUCCESS, s') ∧
     s_calls s' =
       [CallLegoStateSerialize; CallReadFromFile 0; CallReadFromFile 1;
        CallReadFromFile 2; CallReadFromFile 3; CallReadFromFile 4] ∧
     (m_state (s_this s'), s_file s') = read_entries (m_state this) f1) ∧
  (IsWriteMode f1 = true →
   ∃ s', Serialize this f = Done (SUCCESS, s') ∧
     s_calls s' =
       [CallLegoStateSerialize; CallWriteToFile 0; CallWriteToFile 1;
        CallWriteToFile 2; CallWriteToFile 3; CallWriteToFile 4] ∧
     (m_state (s_this s'), s_file s') = write_entries (m_state this) f1).
Proof.
  intros Hlen Hbase. split; intros Hmode.
  - eexists. split; [by apply (Serialize_read_mode _ _ _ _ Hlen Hbase)|].
    cbn. split; [done|]. by destruct (read_entries _ _).
  - eexists. split; [by apply (Serialize_write_mode _ _ _ _ Hlen Hbase)|].
    cbn. split; [done|]. by destruct (write_entries _ _).
Qed.

(** C2, as the code has it.  In read mode [Serialize] checks no length and
    no result code: whatever the stream holds, be it fewer bytes than 5
    entries take, it calls [ReadFromFile] on each of the 5 entries in index
    order and returns [SUCCESS]; the entries are left as [ReadFromFile] left
    them, and the other member of [this] as it was. *)
Theorem Serialize_read_always_SUCCESS (this : t) (f f1 : LegoFile) (r0 : MxResult) :
  length (m_state this) = 5%nat →
  LegoState_Serialize f = (r0, f1) →
  IsReadMode f1 = true →
  ∃ s', Serialize this f = Done (SUCCESS, s') ∧
    m_state (s_this s') = (read_entries (m_state this) f1).1 ∧
    s_file s' = (read_entries (m_state this) f1).2 ∧
    m_unk0x0c (s_this s') = m_unk0x0c this.
Proof.
  intros Hlen Hbase Hmode. eexists.
  split; [by apply (Serialize_read_mode _ _ _ _ Hlen Hbase)|]. done.
Qed.

End Serialize.

(** *** Round trip *)

Section RoundTrip.
Context `{MxTypes} `{SaveInterface}.
Import PizzaMissionState.

(** The file image of one entry and of what [LegoState::Serialize] writes,
    and which entries have one. *)
Variable valid : Entry → Prop.
Variable encode : Entry → list byte.
Variable header : list byte.

(** The routines declared outside pizza.cpp are a codec for that image:
    writing appends it and leaves the object alone, reading consumes it and
    restores the object. *)
Hypothesis WriteToFile_encode : ∀ e bs,
  ∃ r, Entry_WriteToFile e (mkFile c_write bs) =
       (r, e, mkFile c_write (bs ++ encode e)).
Hypothesis ReadFromFile_encode : ∀ e e0 rest, valid e →
  ∃ r, Entry_ReadFromFile e0 (mkFile c_read (encode e ++ rest)) =
       (r, e, mkFile c_read rest).
Hypothesis LegoState_write_header : ∀ bs,
  ∃ r, LegoState_Serialize (mkFile c_write bs) =
       (r, mkFile c_write (bs ++ header)).
Hypothesis LegoState_read_header : ∀ rest,
  ∃ r, LegoState_Serialize (mkFile c_read (header ++ rest)) =
       (r, mkFile c_read rest).

Lemma write_entries_image (es : list Entry) (bs : list byte) :
  write_entries es (mkFile c_write bs) =
  (es, mkFile c_write (bs ++ concat (map encode es))).
Proof.
  revert bs. induction es as [|e es IH]; intros bs; cbn.
  - by rewrite app_nil_r.
  - destruct (WriteToFile_encode e bs) as [r ->].
    fold write_entries. rewrite IH. by rewrite <- app_assoc.
Qed.

Lemma read_entries_image (es old : list Entry) (rest : list byte) :
  Forall valid es → length old = length es →
  read_entries old (mkFile c_read (concat (map encode es) ++ rest)) =
  (es, mkFile c_read rest).
Proof.
  intros Hvalid. revert old.
  induction Hvalid as [|e es He _ IH]; intros [|e0 old] Hlen; try done.
  cbn. rewrite <- app_assoc.
  destruct (ReadFromFile_encode e e0 (concat (map encode es) ++ rest) He)
    as [r ->].
  fold read_entries. rewrite IH; [done|]. cbn in Hlen. lia.
Qed.

(** C1.  Writing a state [X] whose 5 entries are valid and then reading the
    bytes just written into a state with 5 entries of any content gives
    [SUCCESS] both times and a state whose entries are those of [X]; the
    read consumes exactly what the write emitted. *)
Theorem Serialize_roundtrip (X fresh : t) (pre rest : list byte) :
  length (m_state X) = 5%nat →
  length (m_state fresh) = 5%nat →
  Forall valid (m_state X) →
  ∃ out sw sr,
    Serialize X (mkFile c_write pre) = Done (SUCCESS, sw) ∧
    s_this sw = X ∧
    s_file sw = mkFile c_write (pre ++ out) ∧
    Serialize fresh (mkFile c_read (out ++ rest)) = Done (SUCCESS, sr) ∧
    m_state (s_this sr) = m_state X ∧
    s_file sr = mkFile c_read rest.
Proof.
  intros HX Hfresh Hvalid.
  exists (header ++ concat (map encode (m_state X))).
  destruct (LegoState_write_header pre) as [rw Hw].
  destruct (LegoState_read_header (concat (map encode (m_state X)) ++ rest))
    as [rr Hr].
  do 2 eexists. split_and!.
  - by apply (Serialize_write_mode _ _ _ _ HX Hw).
  - cbn. rewrite write_entries_image. cbn. by destruct X.
  - cbn. rewrite write_entries_image. cbn. by rewrite app_assoc.
  - rewrite <- app_assoc. by apply (Serialize_read_mode _ _ _ _ Hfresh Hr).
  - cbn. rewrite read_entries_image; [done|done|congruence].
  - cbn. rewrite read_entries_image; [done|done|congruence].
Qed.

End RoundTrip.

(** *** The save format is a codec *)

Lemma get_put_u32 (v : Z) :
  0 ≤ v < 4294967296 →
  SaveFormat.get_u32 (v mod 256) ((v / 256) mod 256) ((v / 65536) mod 256)
                     ((v / 16777216) mod 256) = v.
Proof.
  intros Hv. unfold SaveFormat.get_u32.
  Z.to_euclidean_division_equations. lia.
Qed.

Lemma SaveFormat_write (e : SaveFormat.PizzaEntry) (bs : list byte) :
  ∃ r, SaveFormat.WriteToFile e (mkFile c_write bs) =
       (r, e, mkFile c_write (bs ++ SaveFormat.encode e)).
Proof. by exists 0. Qed.

Lemma SaveFormat_read (e e0 : SaveFormat.PizzaEntry) (rest : list byte) :
  SaveFormat.valid e →
  ∃ r, SaveFormat.ReadFromFile e0 (mkFile c_read (SaveFormat.encode e ++ rest)) =
       (r, e, mkFile c_read rest).
Proof.
  intros [Hid Hunk]. exists 0. destruct e as [id unk]. cbn in *.
  unfold SaveFormat.ReadFromFile. cbn.
  rewrite get_put_u32 by done. by rewrite Z.mod_small by lia.
Qed.

Lemma SaveFormat_base_write (bs : list byte) :
  ∃ r, SaveFormat.base_Serialize (mkFile c_write bs) =
       (r, mkFile c_write (bs ++ [])).
Proof. exists 0. by rewrite app_nil_r. Qed.

Lemma SaveFormat_base_read (rest : list byte) :
  ∃ r, SaveFormat.base_Serialize (mkFile c_read ([] ++ rest)) =
       (r, mkFile c_read rest).
Proof. by exists 0. Qed.

(** *** Runs on the save format *)

Section OnSaveFormat.
Import ResultCodes.
Import SaveFormat.
Import PizzaMissionState.
Import Samples.

Example sample_written :
  Serialize sample (mkFile c_write []) =
  Done (0, mkSer sample (mkFile c_write sample_image)
             [CallLegoStateSerialize; CallWriteToFile 0; CallWriteToFile 1;
              CallWriteToFile 2; CallWriteToFile 3; CallWriteToFile 4]).
Proof. reflexivity. Qed.

Example sample_read_back :
  Serialize stale (mkFile c_read sample_image) =
  Done (0, mkSer (mk 9 (m_state sample)) (mkFile c_read [])
             [CallLegoStateSerialize; CallReadFromFile 0; CallReadFromFile 1;
              CallReadFromFile 2; CallReadFromFile 3; CallReadFromFile 4]).
Proof. reflexivity. Qed.

Example sample_GetState_3 : GetState sample 3 = Done (Some 2, [0; 1; 2]).
Proof. reflexivity. Qed.

Example sample_GetState_9 : GetState sample 9 = Done (None, [0; 1; 2; 3; 4]).
Proof. reflexivity. Qed.

Lemma sample_valid : Forall valid (m_state sample).
Proof. repeat constructor; cbn; lia. Qed.

Lemma Serialize_roundtrip_witness :
  length (m_state sample) = 5%nat ∧
  length (m_state stale) = 5%nat ∧
  ∃ out sw sr,
    Serialize sample (mkFile c_write []) = Done (SUCCESS, sw) ∧
    s_this sw = sample ∧
    s_file sw = mkFile c_write ([] ++ out) ∧
    Serialize stale (mkFile c_read (out ++ [])) = Done (SUCCESS, sr) ∧
    m_state (s_this sr) = m_state sample ∧
    s_file sr = mkFile c_read [].
Proof.
  split; [reflexivity|]. split; [reflexivity|].
  apply (@Serialize_roundtrip ResultCodes.types interface valid encode []
           SaveFormat_write SaveFormat_read
           SaveFormat_base_write SaveFormat_base_read
           sample stale [] []).
  - reflexivity.
  - reflexivity.
  - exact sample_valid.
Defined.

Lemma Serialize_five_in_index_order_witness :
  (IsReadMode (mkFile c_read sample_image) = true →
   ∃ s', Serialize stale (mkFile c_read sample_image) = Done (SUCCESS, s') ∧
     s_calls s' =
       [CallLegoStateSerialize; CallReadFromFile 0; CallReadFromFile 1;
        CallReadFromFile 2; CallReadFromFile 3; CallReadFromFile 4] ∧
     (m_state (s_this s'), s_file s') =
       read_entries (m_state stale) (mkFile c_read sample_image)) ∧
  (IsWriteMode (mkFile c_read sample_image) = true →
   ∃ s', Serialize stale (mkFile c_read sample_image) = Done (SUCCESS, s') ∧
     s_calls s' =
       [CallLegoStateSerialize; CallWriteToFile 0; CallWriteToFile 1;
        CallWriteToFile 2; CallWriteToFile 3; CallWriteToFile 4] ∧
     (m_state (s_this s'), s_file s') =
       write_entries (m_state stale) (mkFile c_read sample_image)).
Proof.
  apply (Serialize_five_in_index_order stale (mkFile c_read sample_image)
           (mkFile c_read sample_image) 0).
  - reflexivity.
  - reflexivity.
Defined.

Lemma Serialize_read_always_SUCCESS_witness :
  (length cut_image < 5 * entry_size)%nat ∧
  ∃ s', Serialize stale (mkFile c_read cut_image) = Done (SUCCESS, s') ∧
    m_state (s_this s') =
      (read_entries (m_state stale) (mkFile c_read cut_image)).1 ∧
    s_file s' = (read_entries (m_state stale) (mkFile c_read cut_image)).2 ∧
    m_unk0x0c (s_this s') = m_unk0x0c stale.
Proof.
  split; [vm_compute; lia|].
  apply (Serialize_read_always_SUCCESS stale (mkFile c_read cut_image)
           (mkFile c_read cut_image) 0).
  - reflexivity.
  - reflexivity.
  - reflexivity.
Defined.

(** C2 fails on the code.  The stream holds 7 bytes, fewer than the 25 that 5
    records take.  [Serialize] in read mode returns [SUCCESS] all the same,
    and the entries 1 to 4, which the stream does not cover, are left as
    they were, not zeroed. *)
Lemma Serialize_truncated_returns_SUCCESS :
  (length cut_image < 5 * entry_size)%nat ∧
  ∃ s', Serialize stale (mkFile c_read cut_image) = Done (SUCCESS, s') ∧
    m_state (s_this s') =
      [mkEntry 1 0; mkEntry 77 5; mkEntry 77 5; mkEntry 77 5; mkEntry 77 5].
Proof.
  split; [vm_compute; lia|].
  eexists. split; reflexivity.
Qed.

Lemma GetState_first_match_witness :
  length (m_state sample) = 5%nat ∧
  ∃ r reads,
    GetState sample 3 = Done (r, reads) ∧
    Forall (λ i, 0 ≤ i < 5) reads ∧
    first_match (m_state sample) 3 r.
Proof.
  split; [reflexivity|].
  apply (GetState_first_match sample 3). reflexivity.
Defined.

End OnSaveFormat.

(** ** The tickle manager *)

Section Tickle.
Import MxTickleManager.

Lemma UnregisterClient_absent (c : objref) (l : list objref) :
  c ∉ l → UnregisterClient c l = l.
Proof.
  unfold UnregisterClient. induction l as [|x l IH]; intros Hc; [done|].
  apply not_elem_of_cons in Hc as [Hx Hl].
  rewrite filter_cons, decide_True by congruence. by rewrite IH.
Qed.

Lemma UnregisterClient_at (kept rest : list objref) (c : objref) :
  NoDup (kept ++ c :: rest) →
  UnregisterClient c (kept ++ c :: rest) = kept ++ rest.
Proof.
  intros Hnd. apply NoDup_app in Hnd as (_ & Hkept & Hrest).
  apply NoDup_cons in Hrest as [Hc _].
  unfold UnregisterClient.
  rewrite filter_app, filter_cons, decide_False by tauto.
  fold (UnregisterClient c kept). fold (UnregisterClient c rest).
  rewrite !UnregisterClient_absent; [done|done|].
  intros Hin. apply (Hkept c Hin). left.
Qed.

Lemma UnregisterClient_gone (c : objref) (l : list objref) :
  c ∉ UnregisterClient c l.
Proof. unfold UnregisterClient. rewrite list_elem_of_filter. tauto. Qed.

Lemma UnregisterClient_shorter (c : objref) (l : list objref) :
  c ∈ l → (length (UnregisterClient c l) < length l)%nat.
Proof.
  intros Hc. unfold UnregisterClient.
  apply (length_filter_lt _ _ c); [done|tauto].
Qed.

(** A pass over a list without repetitions, from the cursor on: every client
    from the cursor on is ticked once, in list order, whichever of them
    unregister themselves; those that do are gone afterwards. *)
Lemma tickle_from_spec (u : objref → bool) (rest kept ticked : list objref)
    (steps : nat) :
  NoDup (kept ++ rest) → (length rest ≤ steps)%nat →
  tickle_from steps (length kept) u ticked (kept ++ rest) =
  Done (ticked ++ rest, kept ++ filter (λ c, u c = false) rest).
Proof.
  revert kept ticked steps.
  induction rest as [|c rest IH]; intros kept ticked steps Hnd Hsteps.
  - rewrite !app_nil_r. destruct steps; cbn.
    + by rewrite lookup_ge_None_2.
    + by rewrite lookup_ge_None_2.
  - destruct steps as [|steps]; [cbn in Hsteps; lia|].
    cbn [tickle_from]. rewrite list_lookup_middle by done.
    destruct (u c) eqn:Hu.
    + rewrite UnregisterClient_at by done.
      rewrite IH.
      * rewrite filter_cons, decide_False by (rewrite Hu; done).
        by rewrite <- app_assoc.
      * apply NoDup_app in Hnd as (Hk & Hdisj & Hr).
        apply NoDup_cons in Hr as [_ Hr].
        apply NoDup_app. split_and!; [done| |done].
        intros x Hx Hxr. apply (Hdisj x Hx). by right.
      * cbn in Hsteps. lia.
    + replace (S (length kept)) with (length (kept ++ [c]))
        by (rewrite length_app; cbn; lia).
      replace (kept ++ c :: rest) with ((kept ++ [c]) ++ rest)
        by (by rewrite <- app_assoc).
      rewrite IH.
      * rewrite filter_cons, decide_True by done.
        by rewrite <- !app_assoc.
      * by rewrite <- app_assoc.
      * cbn in Hsteps. lia.
Qed.

Lemma TickleAll_spec (u : objref → bool) (tm : list objref) :
  NoDup tm →
  TickleAll u tm = Done (tm, filter (λ c, u c = false) tm).
Proof.
  intros Hnd. unfold TickleAll.
  by apply (tickle_from_spec u tm [] []).
Qed.

Lemma registered_after_NoDup (tm : list objref) (r : request) :
  NoDup tm → NoDup (registered_after tm r).
Proof.
  intros Hnd. destruct r as [c|c|u]; cbn.
  - destruct (decide (c ∈ tm)); [done|].
    apply NoDup_app. split_and!; [done| |apply NoDup_singleton].
    intros x Hx ->%list_elem_of_singleton. done.
  - by apply NoDup_filter.
  - by apply NoDup_filter.
Qed.

Lemma run_spec (reqs : list request) (tm : list objref) :
  NoDup tm →
  run reqs tm = Done (due tm reqs, registered tm reqs) ∧
  Forall NoDup (due tm reqs).
Proof.
  revert tm. induction reqs as [|r reqs IH]; intros tm Hnd; [done|].
  pose proof (registered_after_NoDup tm r Hnd) as Hnd'.
  destruct (IH _ Hnd') as [Hrun Hdue].
  destruct r as [c|c|u]; cbn [run due]; unfold mbind, M_bind, modify.
  - split; [|done]. cbn in Hrun. unfold RegisterClient. by rewrite Hrun.
  - split; [|done]. cbn in Hrun. unfold UnregisterClient. by rewrite Hrun.
  - rewrite TickleAll_spec by done. cbn in Hrun. rewrite Hrun.
    split; [done|]. by constructor.
Qed.

(** C4.  Whatever the sequence of [Register] and [Unregister] calls and of
    passes, starting from no client: the run ends without fault; each pass
    ticks the clients registered when it starts, once each and in the order
    of their registration, and a client that unregisters itself inside its
    hook changes nothing in this for the others in that pass. *)
Theorem TickleAll_each_once_in_order (reqs : list request) :
  run reqs [] = Done (due [] reqs, registered [] reqs) ∧
  Forall NoDup (due [] reqs).
Proof. apply run_spec. constructor. Qed.

Lemma UnregisterClient_subseteq (c : objref) (l : list objref) :
  UnregisterClient c l ⊆ l.
Proof.
  unfold UnregisterClient. intros x Hx.
  apply list_elem_of_filter in Hx. tauto.
Qed.

Lemma cons_subseteq (c : objref) (l1 l2 l : list objref) :
  c ∈ l → l1 ⊆ l2 → l2 ⊆ l → c :: l1 ⊆ l.
Proof.
  intros Hc H1 H2 x Hx. apply elem_of_cons in Hx as [->|Hx]; [done|].
  apply H2, H1, Hx.
Qed.

(** A pass over any list ends, and it ticks and keeps only clients of the
    list. *)
Lemma tickle_from_total (u : objref → bool) (steps cursor : nat)
    (ticked tm : list objref) :
  (length tm - cursor ≤ steps)%nat →
  ∃ ticked' tm',
    tickle_from steps cursor u ticked tm = Done (ticked ++ ticked', tm') ∧
    ticked' ⊆ tm ∧ tm' ⊆ tm.
Proof.
  revert cursor ticked tm.
  induction steps as [|steps IH]; intros cursor ticked tm Hsteps.
  - exists [], tm. cbn. rewrite lookup_ge_None_2 by lia.
    rewrite app_nil_r. split_and!; [done| |done].
    intros x Hx. by apply elem_of_nil in Hx.
  - cbn [tickle_from]. destruct (tm !! cursor) as [c|] eqn:Hc.
    + pose proof (lookup_lt_Some _ _ _ Hc) as Hlt.
      assert (c ∈ tm) as Hin by (by eapply list_elem_of_lookup_2).
      destruct (u c).
      * pose proof (UnregisterClient_shorter c tm Hin) as Hshort.
        pose proof (UnregisterClient_subseteq c tm) as Hsub.
        assert (length (UnregisterClient c tm) - cursor ≤ steps)%nat
          as Hsteps' by lia.
        destruct (IH cursor (ticked ++ [c]) (UnregisterClient c tm) Hsteps')
          as (ticked' & tm' & -> & Ht & Htm).
        exists (c :: ticked'), tm'. rewrite <- app_assoc.
        split_and!; [done| |].
        -- by apply (cons_subseteq c ticked' (UnregisterClient c tm) tm).
        -- intros x Hx. apply Hsub, Htm, Hx.
      * assert (length tm - S cursor ≤ steps)%nat as Hsteps' by lia.
        destruct (IH (S cursor) (ticked ++ [c]) tm Hsteps')
          as (ticked' & tm' & -> & Ht & Htm).
        exists (c :: ticked'), tm'. rewrite <- app_assoc.
        split_and!; [done| |done].
        by apply (cons_subseteq c ticked' tm tm).
    + exists [], tm. rewrite app_nil_r. split_and!; [done| |done].
      intros x Hx. by apply elem_of_nil in Hx.
Qed.

(** A client that is not registered and does not get registered is in no
    pass. *)
Lemma run_without (c : objref) (reqs : list request) (tm : list objref) :
  c ∉ tm → Forall (λ r, ¬ registers c r) reqs →
  ∃ passes tm',
    run reqs tm = Done (passes, tm') ∧ (c ∉ tm') ∧ Forall (λ p, c ∉ p) passes.
Proof.
  intros Hc Hreqs. revert tm Hc.
  induction Hreqs as [|r reqs Hr _ IH]; intros tm Hc.
  - exists [], tm. done.
  - destruct r as [c'|c'|u]; cbn [run]; unfold mbind, M_bind, modify.
    + apply IH. unfold RegisterClient. destruct (decide (c' ∈ tm)); [done|].
      cbn in Hr. intros Hin. apply elem_of_app in Hin as [Hin|Hin]; [done|].
      apply list_elem_of_singleton in Hin. congruence.
    + apply IH. unfold UnregisterClient. rewrite list_elem_of_filter. tauto.
    + assert (length tm - 0 ≤ length tm)%nat as Hsteps by lia.
      destruct (tickle_from_total u (length tm) 0 [] tm Hsteps)
        as (ticked & tm1 & Hpass & Ht & Htm).
      unfold TickleAll. rewrite Hpass.
      assert (c ∉ tm1) as Hc1 by (intros Hin; apply Hc, Htm, Hin).
      destruct (IH tm1 Hc1) as (passes & tm' & -> & ? & ?).
      exists (ticked :: passes), tm'. split_and!; [done|done|].
      constructor; [|done]. intros Hin. apply Hc, Ht, Hin.
Qed.

End Tickle.

(** ** The state registry *)

Lemma obtain_spec (name : string) (gs gs' : LegoGameState.t) (p : option objref) :
  obtain name gs = (p, gs') →
  is_Some p ∧
  LegoGameState.GetState name gs' = p ∧
  (∀ other, other ≠ name →
     LegoGameState.GetState other gs' = LegoGameState.GetState other gs) ∧
  (∀ q, LegoGameState.GetState name gs = Some q → p = Some q ∧ gs' = gs).
Proof.
  unfold obtain, LegoGameState.CreateState, LegoGameState.GetState.
  destruct (LegoGameState.m_stateArray gs !! name) as [q|] eqn:Hq.
  - intros [= <- <-]. split_and!; [by eexists|done|done|].
    intros q' [= <-]. done.
  - intros [= <- <-]. cbn. split_and!; [by eexists| | |done].
    + apply lookup_insert_eq.
    + intros other Hne. by apply lookup_insert_ne.
Qed.

(** ** Pizza *)

Section Pizza.
Context `{MxTypes} `{ActorInterface}.
Import Pizza.

(** [CreateState] is two lookup-then-creates, the second on the registry as
    the first left it; it assigns the two members and nothing else. *)
Lemma CreateState_spec (s : St) (p a : option objref) (gs1 gs2 : LegoGameState.t) :
  obtain "PizzaMissionState" (gameState (env s)) = (p, gs1) →
  obtain "Act1State" gs1 = (a, gs2) →
  CreateState s =
  Done (tt,
        mkSt (set_m_act1state a (set_m_state p (this s)))
             (mkEnv gs2 (tickleManager (env s)) (worlds (env s))
                (calls (env s)
                 ++ protocol "PizzaMissionState" (gameState (env s))
                 ++ protocol "Act1State" gs1))).
Proof.
  destruct s as [this0 [gs tm ws cs]].
  unfold obtain, protocol. cbn [env gameState tickleManager worlds calls this].
  intros Hp Ha.
  unfold CreateState, mbind, M_bind, call_GetState, call_CreateState, assign,
    modify, gets, log, mret, M_ret.
  run_registry.
  destruct (LegoGameState.GetState "PizzaMissionState" gs) as [q|] eqn:Hq.
  - injection Hp as <- <-. run_registry.
    destruct (LegoGameState.GetState "Act1State" gs) as [q'|] eqn:Hq'.
    + injection Ha as <- <-. run_registry. by rewrite <- !app_assoc.
    + run_registry. rewrite Ha. run_registry. by rewrite <- !app_assoc.
  - run_registry. rewrite Hp.
    destruct (obtain_spec "PizzaMissionState" gs gs1 p) as ([q Hqp] & _).
    { unfold obtain. by rewrite Hq. }
    subst p. run_registry.
    destruct (LegoGameState.GetState "Act1State" gs1) as [q'|] eqn:Hq'.
    + injection Ha as <- <-. run_registry. by rewrite <- !app_assoc.
    + run_registry. rewrite Ha. run_registry. by rewrite <- !app_assoc.
Qed.

(** C5.  [CreateState] looks each of its two names up first and creates
    the state exactly when the lookup found nothing: the calls it adds are
    the lookup of "PizzaMissionState", its creation if that gave [NULL],
    the lookup of "Act1State", its creation if that gave [NULL].  Afterwards
    [m_state] and [m_act1state] are not [NULL] and are the objects the
    registry holds under the two names, the ones that were there already
    where there were any. *)
Theorem CreateState_lookup_then_create (s : St) :
  ∃ s', CreateState s = Done (tt, s') ∧ CreateState_contract s s'.
Proof.
  destruct (obtain "PizzaMissionState" (gameState (env s))) as [p gs1] eqn:Hp.
  destruct (obtain "Act1State" gs1) as [a gs2] eqn:Ha.
  eexists. split; [exact (CreateState_spec s p a gs1 gs2 Hp Ha)|].
  destruct (obtain_spec _ _ _ _ Hp) as (Hsome1 & Hget1 & Hother1 & Hold1).
  destruct (obtain_spec _ _ _ _ Ha) as (Hsome2 & Hget2 & Hother2 & Hold2).
  assert (LegoGameState.GetState "Act1State" gs1 =
          LegoGameState.GetState "Act1State" (gameState (env s))) as Hact
    by (by apply Hother1).
  unfold CreateState_contract. cbn. split_and!.
  - unfold protocol. by rewrite Hact.
  - done.
  - rewrite Hother2 by done. done.
  - done.
  - done.
  - intros q Hq. by destruct (Hold1 q Hq).
  - intros q Hq. rewrite <- Hact in Hq. by destruct (Hold2 q Hq).
Qed.


(** C8.  [HandleClick], [HandlePathStruct] and [HandleEndAction] return 0
    whatever they are given, and leave the actor and the globals as they
    were. *)
Theorem handlers_return_0 (s : St) {P1 P2 : Type} (p1 : P1) (p2 : P2) :
  HandleClick s = Done (0, s) ∧
  HandlePathStruct p1 s = Done (0, s) ∧
  HandleEndAction p2 s = Done (0, s).
Proof. done. Qed.

(** C10.  The destructor calls [UnregisterClient(this)] on the tickle
    manager whether or not the Pizza is registered there.  Afterwards the
    manager does not hold the Pizza, and no pass ticks it, in any later run
    of requests that does not register it again. *)
Theorem destroy_unregisters (self : objref) (e : Env LegoWorlds) :
  ∃ e', destroy self e = Done (tt, e') ∧ destroy_contract self e e'.
Proof.
  eexists. split; [reflexivity|].
  unfold destroy_contract. cbn. split_and!; [done|done| |].
  - apply UnregisterClient_gone.
  - intros reqs Hreqs. apply run_without; [|done].
    apply UnregisterClient_gone.
Qed.

End Pizza.

(** *** Runs in the scene *)

Section InScene.
Import ResultCodes.
Import Scene.
Import Samples.
Import Pizza.

Example Create_unplaced :
  Create false pizza0 =
  Done (FAILURE, mkSt (this pizza0) (log CallIsleActorCreate (env pizza0))).
Proof. reflexivity. Qed.

Example Create_placed :
  ∃ s', Create true pizza0 = Done (0, s') ∧
    m_state (this s') = Some 1%positive ∧
    m_act1state (this s') = Some 2%positive ∧
    m_skateboard (this s') = None ∧
    calls (env s') =
      [CallIsleActorCreate;
       CallGetState "PizzaMissionState"; CallCreateState "PizzaMissionState";
       CallGetState "Act1State"; CallCreateState "Act1State";
       CallFind the_world "isle" 33].
Proof. eexists. split; [reflexivity|]. by vm_compute. Qed.

Lemma CreateState_lookup_then_create_witness :
  ∃ s', CreateState pizza0 = Done (tt, s') ∧ CreateState_contract pizza0 s'.
Proof. exact (@CreateState_lookup_then_create Scene.interface pizza0). Defined.


Example Create_by_skateboard :
  ∃ s', Create true pizza_by_skateboard = Done (0, s') ∧
    m_state (this s') = Some 1%positive ∧
    m_act1state (this s') = Some 2%positive ∧
    m_skateboard (this s') = Some 7%positive.
Proof. eexists. split; [reflexivity|]. by vm_compute. Qed.


Lemma destroy_unregisters_witness :
  ∃ e', destroy 5%positive (env pizza0) = Done (tt, e') ∧
        destroy_contract 5%positive (env pizza0) e'.
Proof. exact (@destroy_unregisters Scene.interface 5%positive (env pizza0)). Defined.

End InScene.

(** ** Helicopter *)

Lemma uchar_inj (c1 c2 : ascii) : uchar c1 = uchar c2 → c1 = c2.
Proof.
  unfold uchar. intros Heq%N2Z.inj.
  rewrite <- (ascii_N_embedding c1), <- (ascii_N_embedding c2). by rewrite Heq.
Qed.

(** [strcmp] gives 0 exactly on two pointers to the same C string. *)
Lemma strcmp_eq_0 (s1 s2 : string) : strcmp s1 s2 = 0 ↔ c_str s1 = c_str s2.
Proof.
  revert s2. induction s1 as [|c1 r1 IH]; intros [|c2 r2]; cbn.
  - done.
  - destruct (Z.eqb_spec (uchar c2) 0); split; intros; try done; lia.
  - destruct (Z.eqb_spec (uchar c1) 0); split; intros; try done; lia.
  - destruct (Z.eqb_spec (uchar c1) (uchar c2)) as [Heq|Hne].
    + apply uchar_inj in Heq as <-.
      destruct (Z.eqb_spec (uchar c1) 0); [done|].
      rewrite IH. split; [by intros ->|by intros [= ->]].
    + split; [lia|]. intros Hstr. exfalso. apply Hne.
      destruct (Z.eqb_spec (uchar c1) 0), (Z.eqb_spec (uchar c2) 0);
        try done; [lia|].
      by injection Hstr as -> _.
Qed.

(** C9.  [Helicopter::IsA(p_name)] is true, that is 1 and otherwise 0, if
    and only if [p_name] is the string "Helicopter" or
    [IslePathActor::IsA(p_name)] is true; [ClassName()] is "Helicopter", so
    a Helicopter is a [ClassName()]. *)
Theorem IsA_iff (IslePathActor_IsA : string → MxBool) (p_name : string) :
  (Helicopter.IsA IslePathActor_IsA p_name = 1 ∨
   Helicopter.IsA IslePathActor_IsA p_name = 0) ∧
  (Helicopter.IsA IslePathActor_IsA p_name = 1 ↔
   c_str p_name = "Helicopter" ∨ IslePathActor_IsA p_name ≠ 0) ∧
  Helicopter.ClassName = "Helicopter" ∧
  Helicopter.IsA IslePathActor_IsA "Helicopter" = 1 ∧
  Helicopter.IsA IslePathActor_IsA Helicopter.ClassName = 1.
Proof.
  unfold Helicopter.IsA.
  assert (c_str "Helicopter" = "Helicopter") as Hname by done.
  assert (Helicopter.ClassName = "Helicopter") as Hclass by done.
  split_and!.
  - destruct (_ || _); auto.
  - destruct (Z.eqb_spec (strcmp p_name Helicopter.ClassName) 0) as [Hcmp|Hcmp];
      rewrite strcmp_eq_0, Hclass, Hname in Hcmp.
    + cbn. tauto.
    + destruct (Z.eqb_spec (IslePathActor_IsA p_name) 0) as [Hb|Hb]; cbn.
      * split; [done|]. intros [?|?]; done.
      * tauto.
  - done.
  - done.
  - done.
Qed.

Example IsA_Helicopter : Helicopter.IsA (λ _, 0) "Helicopter" = 1.
Proof. reflexivity. Qed.

Example IsA_other : Helicopter.IsA (λ _, 0) "Helicopters" = 0.
Proof. reflexivity. Qed.

Example IsA_base :
  Helicopter.IsA (λ s, of_bool (bool_decide (s = "IslePathActor")))
    "IslePathActor" = 1.
Proof. reflexivity. Qed.

Lemma IsA_iff_witness :
  (Helicopter.IsA (λ _, 0) "Helicopter" = 1 ↔
   c_str "Helicopter" = "Helicopter" ∨ (λ _ : string, 0) "Helicopter" ≠ 0) ∧
  (Helicopter.IsA (λ _, 0) "Helicopters" = 1 ↔
   c_str "Helicopters" = "Helicopter" ∨ (λ _ : string, 0) "Helicopters" ≠ 0).
Proof.
  split.
  - exact (proj1 (proj2 (IsA_iff (λ _, 0) "Helicopter"))).
  - exact (proj1 (proj2 (IsA_iff (λ _, 0) "Helicopters"))).
Defined.

(** *** Runs of the tickle manager *)

Section TickleRuns.
Import MxTickleManager.

(** Clients 1, 2, 3; in the first pass client 2 unregisters itself. *)
Example pass_with_self_unregister :
  run [Register 1%positive; Register 2%positive; Register 1%positive;
       Register 3%positive;
       Pass (λ c, bool_decide (c = 2%positive));
       Pass (λ _, false);
       Unregister 1%positive;
       Pass (λ _, true);
       Pass (λ _, false)] [] =
  Done ([[1%positive; 2%positive; 3%positive];
         [1%positive; 3%positive];
         [3%positive];
         []], []).
Proof. reflexivity. Qed.

End TickleRuns.

(** * Further properties *)

(** ** PizzaMissionState::GetState, the scan *)

Section GetStateScan.
Context `{MxTypes} `{SaveInterface}.

Lemma first_match_unique (es : list Entry) (p_id : MxU8) (r r' : option Z) :
  first_match es p_id r → first_match es p_id r' → r = r'.
Proof.
  destruct r as [i|], r' as [i'|]; cbn; try done.
  - intros (Hi & (e & He & Hid) & Hmin) (Hi' & (e' & He' & Hid') & Hmin').
    f_equal.
    destruct (Z.lt_trichotomy i i') as [Hlt|[->|Hgt]]; [|done|].
    + exfalso. apply (Hmin' (Z.to_nat i) e); [lia|done|done].
    + exfalso. apply (Hmin (Z.to_nat i') e'); [lia|done|done].
  - intros (_ & (e & He & Hid) & _) Hnone. by destruct (Hnone _ _ He).
  - intros Hnone (_ & (e & He & Hid) & _). by destruct (Hnone _ _ He).
Qed.

(** The scan stops at the first match: it reads the indices from 0 up to
    the match, or all five. *)
Lemma GetState_run (this : PizzaMissionState.t) (p_id : MxU8) :
  length (PizzaMissionState.m_state this) = 5%nat →
  ∃ r,
    PizzaMissionState.GetState this p_id =
      Done (r, seqZ 0 (match r with Some i => i + 1 | None => 5 end)) ∧
    first_match (PizzaMissionState.m_state this) p_id r.
Proof.
  intros Hlen.
  unfold PizzaMissionState.GetState, PizzaMissionState.GetState_body.
  set (es := PizzaMissionState.m_state this) in *.
  set (body := λ (i : Z) (reads : list Z),
         match array_get es i with
         | Some e =>
             if m_id e =? p_id
             then Done (Some i, reads ++ [i])
             else Done (None, reads ++ [i])
         | None => Fault
         end).
  destruct (for_MxS16_rule
    (λ i reads, reads = seqZ 0 i ∧
                ∀ j e, (j < Z.to_nat i)%nat → es !! j = Some e → m_id e ≠ p_id)
    (λ r reads,
       reads = seqZ 0 (match r with Some i => i + 1 | None => 5 end) ∧
       first_match es p_id r)
    0 5 body []) as (r & reads & Hrun & -> & Hr).
  - lia.
  - lia.
  - intros i reads Hi [-> Hbefore]. unfold body.
    destruct (array_get_in_bounds es i ltac:(lia)) as [e He].
    rewrite He. apply array_get_Some in He as [_ He].
    assert (seqZ 0 i ++ [i] = seqZ 0 (i + 1)) as Hseq.
    { by rewrite (seqZ_app 0 i 1) by lia. }
    rewrite Hseq.
    destruct (Z.eqb_spec (m_id e) p_id) as [Heq|Hne].
    + split; [done|]. cbn. split; [lia|]. split; [eauto|done].
    + split; [done|]. intros j e' Hj He'.
      destruct (decide (j = Z.to_nat i)) as [->|Hji].
      * congruence.
      * apply (Hbefore j e'); [lia|done].
  - intros reads [-> Hbefore]. split; [done|]. cbn. intros j e He.
    apply (Hbefore j e); [|done].
    apply lookup_lt_Some in He. lia.
  - split; [done|]. intros j e Hj. lia.
  - exists r. split; [|done].
    etrans; [exact (mbind_Done _ _ _ _ _ Hrun)|]. by destruct r.
Qed.

(** X1.  When entry [i] of the 5 has the key and no entry before it has,
    [GetState] returns the pointer to entry [i] and has read the entries 0
    to [i] only; when no entry has the key it returns [NULL] having read all
    five. *)
Theorem GetState_stops_at_first (this : PizzaMissionState.t) (p_id : MxU8) :
  length (PizzaMissionState.m_state this) = 5%nat →
  (∀ i, first_match (PizzaMissionState.m_state this) p_id (Some i) →
     PizzaMissionState.GetState this p_id = Done (Some i, seqZ 0 (i + 1))) ∧
  (first_match (PizzaMissionState.m_state this) p_id None →
     PizzaMissionState.GetState this p_id = Done (None, [0; 1; 2; 3; 4])).
Proof.
  intros Hlen.
  destruct (GetState_run this p_id Hlen) as (r & Hrun & Hr).
  split.
  - intros i Hi. by rewrite (first_match_unique _ _ _ _ Hr Hi) in Hrun.
  - intros Hnone. by rewrite (first_match_unique _ _ _ _ Hr Hnone) in Hrun.
Qed.

(** [GetState] looks at the keys only. *)
Lemma first_match_keys (es es' : list Entry) (p_id : MxU8) (r : option Z) :
  m_id <$> es = m_id <$> es' →
  first_match es p_id r → first_match es' p_id r.
Proof.
  intros Hkeys.
  assert (∀ j e', es' !! j = Some e' →
            ∃ e, es !! j = Some e ∧ m_id e = m_id e') as Hback.
  { intros j e' He'.
    assert ((m_id <$> es) !! j = Some (m_id e')) as Hj
      by (by rewrite Hkeys, list_lookup_fmap, He').
    rewrite list_lookup_fmap in Hj.
    destruct (es !! j) as [e|]; [|done]. injection Hj as Hj. eauto. }
  assert (∀ j e, es !! j = Some e →
            ∃ e', es' !! j = Some e' ∧ m_id e' = m_id e) as Hforth.
  { intros j e He.
    assert ((m_id <$> es') !! j = Some (m_id e)) as Hj
      by (by rewrite <- Hkeys, list_lookup_fmap, He).
    rewrite list_lookup_fmap in Hj.
    destruct (es' !! j) as [e'|]; [|done]. injection Hj as Hj. eauto. }
  destruct r as [i|]; cbn.
  - intros (Hi & (e & He & Hid) & Hmin). split; [done|]. split.
    + destruct (Hforth _ _ He) as (e' & He' & Hid'). exists e'.
      split; [done|congruence].
    + intros j e' Hj He'. destruct (Hback _ _ He') as (e0 & He0 & Hid0).
      rewrite <- Hid0. by apply (Hmin j e0).
  - intros Hnone j e' He'. destruct (Hback _ _ He') as (e0 & He0 & Hid0).
    rewrite <- Hid0. by apply (Hnone j e0).
Qed.

(** X15.  [GetState] looks at [m_id] only: on two states whose 5 entries
    carry the same keys in the same order, whatever their other members
    hold, it returns the same pointer after the same reads. *)
Theorem GetState_keys_only (this this' : PizzaMissionState.t) (p_id : MxU8) :
  length (PizzaMissionState.m_state this) = 5%nat →
  m_id <$> PizzaMissionState.m_state this
    = m_id <$> PizzaMissionState.m_state this' →
  PizzaMissionState.GetState this p_id = PizzaMissionState.GetState this' p_id.
Proof.
  intros Hlen Hkeys.
  assert (length (PizzaMissionState.m_state this') = 5%nat) as Hlen'.
  { rewrite <- Hlen.
    rewrite <- (length_fmap m_id (PizzaMissionState.m_state this')).
    by rewrite <- Hkeys, length_fmap. }
  destruct (GetState_run this p_id Hlen) as (r & Hrun & Hr).
  destruct (GetState_run this' p_id Hlen') as (r' & Hrun' & Hr').
  apply (first_match_keys _ _ _ _ Hkeys) in Hr.
  rewrite (first_match_unique _ _ _ _ Hr Hr') in Hrun.
  by rewrite Hrun, Hrun'.
Qed.

End GetStateScan.

(** ** PizzaMissionState::Serialize, result and frame *)

Section SerializeFrame.
Context `{MxTypes} `{SaveInterface}.
Import PizzaMissionState.

(** X2.  On its 5 entries [Serialize] ends, and with [SUCCESS], whatever
    the mode of the file and whatever result codes [LegoState::Serialize],
    [ReadFromFile] and [WriteToFile] give; its first call is the base-class
    one; it leaves 5 entries and does not touch [m_unk0x0c]. *)
Theorem Serialize_never_fails (this : t) (f : LegoFile) :
  length (m_state this) = 5%nat →
  ∃ s' later,
    Serialize this f = Done (SUCCESS, s') ∧
    s_calls s' = CallLegoStateSerialize :: later ∧
    length (m_state (s_this s')) = 5%nat ∧
    m_unk0x0c (s_this s') = m_unk0x0c this.
Proof.
  intros Hlen.
  destruct (LegoState_Serialize f) as [r0 f1] eqn:Hbase.
  destruct (IsReadMode f1) eqn:Hrd; [|destruct (IsWriteMode f1) eqn:Hwr].
  - do 2 eexists. split; [by apply (Serialize_read_mode _ _ _ _ Hlen Hbase)|].
    cbn. split_and!; [done| |done].
    unfold read_entries. by rewrite thread_length.
  - do 2 eexists. split; [by apply (Serialize_write_mode _ _ _ _ Hlen Hbase)|].
    cbn. split_and!; [done| |done].
    unfold write_entries. by rewrite thread_length.
  - do 2 eexists. split; [by apply (Serialize_no_mode _ _ _ _ Hbase)|].
    done.
Qed.

(** X3.  On a file that the base-class call leaves in neither mode
    [Serialize] transfers nothing: it calls neither [ReadFromFile] nor
    [WriteToFile], leaves [this] and the file as they are, and still
    returns [SUCCESS]. *)
Theorem Serialize_neither_mode (this : t) (f f1 : LegoFile) (r0 : MxResult) :
  LegoState_Serialize f = (r0, f1) →
  IsReadMode f1 = false →
  IsWriteMode f1 = false →
  ∃ s', Serialize this f = Done (SUCCESS, s') ∧
    s_this s' = this ∧ s_file s' = f1 ∧
    s_calls s' = [CallLegoStateSerialize].
Proof.
  intros Hbase Hrd Hwr. eexists.
  split; [by apply (Serialize_no_mode _ _ _ _ Hbase)|]. done.
Qed.

End SerializeFrame.

Section WriteImage.
Context `{MxTypes} `{SaveInterface}.
Import PizzaMissionState.

Variable encode : Entry → list byte.
Variable header : list byte.

Hypothesis WriteToFile_appends : ∀ e bs,
  ∃ r, Entry_WriteToFile e (mkFile c_write bs) =
       (r, e, mkFile c_write (bs ++ encode e)).
Hypothesis LegoState_appends : ∀ bs,
  ∃ r, LegoState_Serialize (mkFile c_write bs) =
       (r, mkFile c_write (bs ++ header)).

(** X4.  When [WriteToFile] appends the image of its entry and the
    base-class call appends a header, [Serialize] in write mode leaves
    [this] as it is and appends to the file the header and then the images
    of the entries 0 to 4, with nothing before, between or after them; with
    images of one width [w] that is [5 * w] bytes after the header. *)
Theorem Serialize_write_image (X : t) (pre : list byte) :
  length (m_state X) = 5%nat →
  ∃ s', Serialize X (mkFile c_write pre) = Done (SUCCESS, s') ∧
    s_this s' = X ∧
    s_file s' =
      mkFile c_write (pre ++ header ++ concat (map encode (m_state X))) ∧
    (∀ w, Forall (λ e, length (encode e) = w) (m_state X) →
       length (m_bytes (s_file s')) = (length pre + length header + 5 * w)%nat).
Proof.
  intros HX.
  destruct (LegoState_appends pre) as [rw Hw].
  pose proof (write_entries_image encode WriteToFile_appends (m_state X)
                (pre ++ header)) as Himage.
  eexists. split; [by apply (Serialize_write_mode _ _ _ _ HX Hw)|].
  cbn. rewrite Himage. cbn. split_and!.
  - by destruct X.
  - by rewrite <- app_assoc.
  - intros w Hw'. rewrite !length_app.
    assert (length (concat (map encode (m_state X))) =
            (length (m_state X) * w)%nat) as ->; [|lia].
    clear HX Himage. induction Hw' as [|e es He _ IH]; [done|].
    cbn. rewrite length_app, IH, He. lia.
Qed.

End WriteImage.

(** ** Pizza, further *)

Lemma obtain_keeps (name : string) (gs gs' : LegoGameState.t) (p : option objref) :
  obtain name gs = (p, gs') →
  ∀ other q, LegoGameState.GetState other gs = Some q →
             LegoGameState.GetState other gs' = Some q.
Proof.
  intros Hob other q Hq.
  destruct (obtain_spec _ _ _ _ Hob) as (_ & _ & Hother & Hold).
  destruct (decide (other = name)) as [->|Hne].
  - by destruct (Hold q Hq) as [_ ->].
  - by rewrite Hother.
Qed.

Lemma obtain_present (name : string) (gs : LegoGameState.t) (q : objref) :
  LegoGameState.GetState name gs = Some q →
  obtain name gs = (Some q, gs) ∧ protocol name gs = [CallGetState name].
Proof. intros Hq. unfold obtain, protocol. by rewrite Hq. Qed.

Section PizzaFurther.
Context `{MxTypes} `{ActorInterface}.
Import Pizza.

Lemma CreateState_result (s s' : St) :
  CreateState s = Done (tt, s') →
  ∃ p a gs1 gs2,
    obtain "PizzaMissionState" (gameState (env s)) = (p, gs1) ∧
    obtain "Act1State" gs1 = (a, gs2) ∧
    s' = mkSt (set_m_act1state a (set_m_state p (this s)))
              (mkEnv gs2 (tickleManager (env s)) (worlds (env s))
                 (calls (env s)
                  ++ protocol "PizzaMissionState" (gameState (env s))
                  ++ protocol "Act1State" gs1)).
Proof.
  intros Hrun.
  destruct (obtain "PizzaMissionState" (gameState (env s))) as [p gs1] eqn:Hp.
  destruct (obtain "Act1State" gs1) as [a gs2] eqn:Ha.
  rewrite (CreateState_spec s p a gs1 gs2 Hp Ha) in Hrun.
  injection Hrun as <-. by exists p, a, gs1, gs2.
Qed.

(** X5.  [CreateState] assigns [m_state] and [m_act1state] and nothing else
    of [this]; it leaves the tickle manager and the worlds alone; and every
    state object the registry held under any name it still holds under that
    name afterwards. *)
Theorem CreateState_frame (s : St) :
  ∃ s', CreateState s = Done (tt, s') ∧
    base (this s') = base (this s) ∧
    m_entry (this s') = m_entry (this s) ∧
    m_skateboard (this s') = m_skateboard (this s) ∧
    m_unk0x8c (this s') = m_unk0x8c (this s) ∧
    m_unk0x90 (this s') = m_unk0x90 (this s) ∧
    m_unk0x98 (this s') = m_unk0x98 (this s) ∧
    tickleManager (env s') = tickleManager (env s) ∧
    worlds (env s') = worlds (env s) ∧
    (∀ name q,
       LegoGameState.GetState name (gameState (env s)) = Some q →
       LegoGameState.GetState name (gameState (env s')) = Some q).
Proof.
  destruct (obtain "PizzaMissionState" (gameState (env s))) as [p gs1] eqn:Hp.
  destruct (obtain "Act1State" gs1) as [a gs2] eqn:Ha.
  eexists. split; [exact (CreateState_spec s p a gs1 gs2 Hp Ha)|].
  cbn. split_and!; try done.
  intros name q Hq.
  apply (obtain_keeps _ _ _ _ Ha), (obtain_keeps _ _ _ _ Hp), Hq.
Qed.

(** X6.  Once [CreateState] has run, a [CreateState] on the registry it
    left, by this Pizza or by another, creates nothing: it makes the two
    lookups only, leaves the registry as it is, and obtains the same two
    objects. *)
Theorem CreateState_again (s s' s2 : St) :
  CreateState s = Done (tt, s') →
  gameState (env s2) = gameState (env s') →
  ∃ s2', CreateState s2 = Done (tt, s2') ∧
    calls (env s2') =
      calls (env s2) ++ [CallGetState "PizzaMissionState";
                         CallGetState "Act1State"] ∧
    gameState (env s2') = gameState (env s2) ∧
    m_state (this s2') = m_state (this s') ∧
    m_act1state (this s2') = m_act1state (this s').
Proof.
  intros Hrun Hgs.
  destruct (CreateState_result s s' Hrun) as (p & a & gs1 & gs2 & Hp & Ha & ->).
  cbn in Hgs.
  destruct (obtain_spec _ _ _ _ Hp) as ([q ->] & Hget1 & _ & _).
  destruct (obtain_spec _ _ _ _ Ha) as ([q' ->] & Hget2 & Hother2 & _).
  assert (LegoGameState.GetState "PizzaMissionState" gs2 = Some q) as Hq
    by (by rewrite Hother2).
  destruct (obtain_present _ _ _ Hq) as [Hob1 Hpr1].
  destruct (obtain_present _ _ _ Hget2) as [Hob2 Hpr2].
  rewrite <- Hgs in Hob1, Hpr1, Hob2, Hpr2.
  eexists. split; [exact (CreateState_spec s2 _ _ _ _ Hob1 Hob2)|].
  cbn [env this calls gameState]. rewrite Hpr1, Hpr2. done.
Qed.

(** X7.  [Create] goes through [m_world] without a check: when
    [IsleActor::Create] gives [SUCCESS] and leaves [m_world] at [NULL], the
    call of [Find] is an access through [NULL]. *)
Theorem Create_without_world (a : MxDSAction) (s : St) (b' : IsleActor)
    (e1 : Env LegoWorlds) :
  IsleActor_Create a (base (this s)) (env s) = (SUCCESS, b', e1) →
  m_world b' = None →
  Create a s = Fault.
Proof.
  intros Hbase Hw.
  set (s1 := mkSt (set_base b' (this s)) (log CallIsleActorCreate e1)).
  assert (call_IsleActor_Create a s = Done (SUCCESS, s1)) as Hcall.
  { unfold call_IsleActor_Create. by rewrite Hbase. }
  destruct (obtain "PizzaMissionState" (gameState (env s1))) as [p gs1] eqn:Hp.
  destruct (obtain "Act1State" gs1) as [q gs2] eqn:Hq.
  pose proof (CreateState_spec s1 p q gs1 gs2 Hp Hq) as Hcs.
  unfold Create. rewrite (mbind_Done _ _ _ _ _ Hcall).
  rewrite Z.eqb_refl.
  unfold mbind at 1. unfold M_bind at 1.
  unfold mbind at 1. unfold M_bind at 1.
  rewrite Hcs. unfold mbind, M_bind, call_Find. cbn. by rewrite Hw.
Qed.

(** X8.  When [IsleActor::Create] gives [SUCCESS] and the actor has a world
    [w], [Create] adds these calls, in this order: the lookup and, if
    needed, creation of the two states, then [Find] on [w] for the
    skateboard.  It leaves the tickle manager and the worlds as the
    base-class call left them (it registers no client), both state members
    are set, and [m_skateboard] is what [Find] gave. *)
Theorem Create_success_calls (a : MxDSAction) (s : St) (b' : IsleActor)
    (e1 : Env LegoWorlds) (w : objref) :
  IsleActor_Create a (base (this s)) (env s) = (SUCCESS, b', e1) →
  m_world b' = Some w →
  ∃ s', Create a s = Done (SUCCESS, s') ∧
    calls (env s') =
      calls e1 ++ [CallIsleActorCreate]
      ++ protocol "PizzaMissionState" (gameState e1)
      ++ protocol "Act1State" (gameState e1)
      ++ [CallFind w (m_atomId b') c_SkateBoard_Actor] ∧
    tickleManager (env s') = tickleManager e1 ∧
    worlds (env s') = worlds e1 ∧
    base (this s') = b' ∧
    is_Some (m_state (this s')) ∧
    is_Some (m_act1state (this s')) ∧
    m_skateboard (this s') =
      LegoWorld_Find (worlds e1) w (m_atomId b') c_SkateBoard_Actor.
Proof.
  intros Hbase Hw.
  set (s1 := mkSt (set_base b' (this s)) (log CallIsleActorCreate e1)).
  assert (call_IsleActor_Create a s = Done (SUCCESS, s1)) as Hcall.
  { unfold call_IsleActor_Create. by rewrite Hbase. }
  destruct (obtain "PizzaMissionState" (gameState (env s1))) as [p gs1] eqn:Hp.
  destruct (obtain "Act1State" gs1) as [q gs2] eqn:Hq.
  pose proof (CreateState_spec s1 p q gs1 gs2 Hp Hq) as Hcs.
  destruct (obtain_spec _ _ _ _ Hp) as (Hsome1 & _ & Hother1 & _).
  destruct (obtain_spec _ _ _ _ Hq) as (Hsome2 & _ & _ & _).
  assert (protocol "Act1State" gs1 = protocol "Act1State" (gameState e1)) as Hpr.
  { unfold protocol. by rewrite Hother1. }
  eexists. split.
  - unfold Create. rewrite (mbind_Done _ _ _ _ _ Hcall).
    rewrite Z.eqb_refl.
    unfold mbind at 1. unfold M_bind at 1.
    unfold mbind at 1. unfold M_bind at 1.
    rewrite Hcs. unfold mbind, M_bind, call_Find. cbn. rewrite Hw. done.
  - cbn. rewrite Hpr. split_and!; try done.
    unfold protocol. by repeat (rewrite <- app_assoc; cbn).
Qed.

(** X9.  The destructor does not touch the registry or the worlds: the state
    objects that [CreateState] obtained stay registered under their names
    when the Pizza is destroyed, and every other client of the tickle
    manager stays registered. *)
Theorem destroy_keeps_states (self : objref) (s s' : St) :
  CreateState s = Done (tt, s') →
  ∃ e', destroy self (env s') = Done (tt, e') ∧
    gameState e' = gameState (env s') ∧
    worlds e' = worlds (env s') ∧
    LegoGameState.GetState "PizzaMissionState" (gameState e')
      = m_state (this s') ∧
    LegoGameState.GetState "Act1State" (gameState e')
      = m_act1state (this s') ∧
    (∀ c, c ≠ self → c ∈ tickleManager e' ↔ c ∈ tickleManager (env s')).
Proof.
  intros Hrun.
  destruct (CreateState_result s s' Hrun) as (p & a & gs1 & gs2 & Hp & Ha & ->).
  destruct (obtain_spec _ _ _ _ Hp) as (_ & Hget1 & _ & _).
  destruct (obtain_spec _ _ _ _ Ha) as (_ & Hget2 & Hother2 & _).
  eexists. split; [reflexivity|]. cbn. split_and!; try done.
  - by rewrite Hother2.
  - intros c Hc. unfold MxTickleManager.UnregisterClient.
    rewrite list_elem_of_filter. tauto.
Qed.

End PizzaFurther.

(** ** Pizza::FUN_10038220 *)

Lemma land_le (a b : Z) : 0 ≤ a → Z.land a b ≤ a.
Proof.
  intros Ha.
  assert (a = Z.land a b + Z.ldiff a b) as Hsplit.
  { rewrite Z.add_nocarry_lxor.
    - apply Z.bits_inj'. intros n Hn.
      rewrite Z.lxor_spec, Z.land_spec, Z.ldiff_spec.
      by destruct (Z.testbit a n), (Z.testbit b n).
    - apply Z.bits_inj'. intros n Hn.
      rewrite !Z.land_spec, Z.ldiff_spec, Z.bits_0.
      by destruct (Z.testbit a n), (Z.testbit b n). }
  assert (0 ≤ Z.ldiff a b) by (apply Z.ldiff_nonneg; lia).
  lia.
Qed.

Lemma clear_bits_spec (flags mask : Z) :
  0 ≤ flags < 4294967296 →
  0 ≤ clear_bits flags mask ≤ flags ∧
  ∀ n, 0 ≤ n →
    Z.testbit (clear_bits flags mask) n =
    Z.testbit flags n && negb (Z.testbit mask n).
Proof.
  intros Hflags. unfold clear_bits.
  assert (0 ≤ Z.land flags (Z.lnot mask) ≤ flags) as Hland.
  { split; [apply Z.land_nonneg; lia|]. apply land_le. lia. }
  rewrite Z.mod_small by lia. split; [done|].
  intros n Hn. by rewrite Z.land_spec, Z.lnot_spec.
Qed.

Section Mission.
Context `{MxTypes} `{SaveInterface} `{!MissionInterface} `{ActorInterface}.
Import Mission.

Lemma FUN_10038220_run (obj : MxU32) (g : Game) (p a : objref)
    (st : PizzaMissionState.t) (i : Z) (en : Entry) :
  bound_to g p a st →
  first_match (PizzaMissionState.m_state st) (to_MxU8 (actorId g)) (Some i) →
  PizzaMissionState.m_state st !! Z.to_nat i = Some en →
  FUN_10038220 obj g = Done (tt, started g p a st i en).
Proof.
  intros (Hst & Hms & Hlen & Hact & [v Hv]) Hfirst Hen.
  destruct (GetState_run st (to_MxU8 (actorId g)) Hlen) as (r & Hrun & Hr).
  rewrite (first_match_unique _ _ _ _ Hr Hfirst) in Hrun.
  assert (array_get (PizzaMissionState.m_state st) i = Some en) as Hget.
  { apply array_get_Some. split; [|done]. cbn in Hfirst. lia. }
  destruct g as [pz id ms a1 fl an]. unfold started.
  cbn in Hst, Hms, Hact, Hv, Hrun |- *.
  unfold FUN_10038220. run_game.
  rewrite Hst, Hms. run_game. rewrite Hrun. run_game.
  rewrite Hst, Hms. run_game. rewrite Hact, Hv. run_game.
  rewrite Hst. rewrite lookup_insert_eq. run_game.
  rewrite Hget. run_game. rewrite insert_insert_eq.
  unfold PizzaMissionState.set_entry. cbn.
  by rewrite <- !app_assoc.
Qed.


(** X11.  [FUN_10038220] uses what [GetState] returns without a check: when
    no entry of the mission state has the actor's id, [m_entry] is [NULL]
    and the assignment to [m_entry->m_unk0x10] goes through it. *)
Theorem FUN_10038220_missing_key (obj : MxU32) (g : Game) (p a : objref)
    (st : PizzaMissionState.t) :
  bound_to g p a st →
  first_match (PizzaMissionState.m_state st) (to_MxU8 (actorId g)) None →
  FUN_10038220 obj g = Fault.
Proof.
  intros (Hst & Hms & Hlen & Hact & [v Hv]) Hnone.
  destruct (GetState_run st (to_MxU8 (actorId g)) Hlen) as (r & Hrun & Hr).
  rewrite (first_match_unique _ _ _ _ Hr Hnone) in Hrun.
  destruct g as [pz id ms a1 fl an].
  cbn in Hst, Hms, Hact, Hv, Hrun |- *.
  unfold FUN_10038220. run_game.
  rewrite Hst, Hms. run_game. rewrite Hrun. run_game.
  rewrite Hst, Hms. run_game. rewrite Hact, Hv. by run_game.
Qed.

(** X12.  [FUN_10038220] goes through [m_state] and [m_act1state] without a
    check: on a Pizza whose [m_state] is [NULL], as the constructor leaves
    it, and on one with a good [m_state] whose [m_act1state] is [NULL], it
    is an access through [NULL]. *)
Theorem FUN_10038220_unbound (obj : MxU32) (g : Game) :
  (Pizza.m_state (pizza g) = None → FUN_10038220 obj g = Fault) ∧
  (∀ b, pizza g = Pizza.Pizza b → FUN_10038220 obj g = Fault) ∧
  (∀ p st,
     Pizza.m_state (pizza g) = Some p → missions g !! p = Some st →
     length (PizzaMissionState.m_state st) = 5%nat →
     Pizza.m_act1state (pizza g) = None →
     FUN_10038220 obj g = Fault).
Proof.
  assert (Pizza.m_state (pizza g) = None → FUN_10038220 obj g = Fault) as Hnull.
  { intros Hst. destruct g as [pz id ms a1 fl an]. cbn in Hst.
    unfold FUN_10038220. run_game. rewrite Hst. by run_game. }
  split_and!.
  - exact Hnull.
  - intros b Hb. apply Hnull. by rewrite Hb.
  - intros p st Hst Hms Hlen Hact.
    destruct (GetState_run st (to_MxU8 (actorId g)) Hlen) as (r & Hrun & _).
    destruct g as [pz id ms a1 fl an].
    cbn in Hst, Hms, Hact, Hrun |- *.
    unfold FUN_10038220. run_game.
    rewrite Hst, Hms. run_game. rewrite Hrun. run_game.
    rewrite Hst, Hms. run_game. rewrite Hact. by run_game.
Qed.

(** X13.  With good pointers, a key that is there and [g_isleFlags] a value
    of its type, [FUN_10038220] clears in [g_isleFlags] the bits of
    [Isle::c_playMusic] and keeps every other bit; the value does not
    grow. *)
Theorem FUN_10038220_clears_music (obj : MxU32) (g : Game) (p a : objref)
    (st : PizzaMissionState.t) (i : Z) (en : Entry) :
  bound_to g p a st →
  first_match (PizzaMissionState.m_state st) (to_MxU8 (actorId g)) (Some i) →
  PizzaMissionState.m_state st !! Z.to_nat i = Some en →
  0 ≤ g_isleFlags g < 4294967296 →
  ∃ g', FUN_10038220 obj g = Done (tt, g') ∧
    0 ≤ g_isleFlags g' ≤ g_isleFlags g ∧
    (∀ n, 0 ≤ n →
       Z.testbit (g_isleFlags g') n =
       Z.testbit (g_isleFlags g) n && negb (Z.testbit c_playMusic n)).
Proof.
  intros Hbound Hfirst Hen Hflags. eexists.
  split; [exact (FUN_10038220_run obj g p a st i en Hbound Hfirst Hen)|].
  unfold started. cbn -[clear_bits]. by apply clear_bits_spec.
Qed.

(** X14.  When assigning to [m_unk0x10] leaves [m_id] alone,
    [FUN_10038220] keeps what it needs: afterwards the pointers are still
    good, [GetState] for the actor's id on the mission state gives
    [m_entry] again, and a second call ends as well and leaves [m_entry]
    where it is. *)
Theorem FUN_10038220_again (obj obj' : MxU32) (g : Game) (p a : objref)
    (st : PizzaMissionState.t) (i : Z) (en : Entry) :
  (∀ v e, m_id (set_m_unk0x10 v e) = m_id e) →
  bound_to g p a st →
  first_match (PizzaMissionState.m_state st) (to_MxU8 (actorId g)) (Some i) →
  PizzaMissionState.m_state st !! Z.to_nat i = Some en →
  ∃ g' st',
    FUN_10038220 obj g = Done (tt, g') ∧
    bound_to g' p a st' ∧
    PizzaMissionState.GetState st' (to_MxU8 (actorId g')) =
      Done (Pizza.m_entry (pizza g'), seqZ 0 (i + 1)) ∧
    ∃ g'', FUN_10038220 obj' g' = Done (tt, g'') ∧
           Pizza.m_entry (pizza g'') = Pizza.m_entry (pizza g').
Proof.
  intros Hlaw Hbound Hfirst Hen.
  pose proof Hbound as (Hst & Hms & Hlen & Hact & Hv).
  set (en' := set_m_unk0x10 2147483648 en).
  set (st' := PizzaMissionState.mk 1
                (<[Z.to_nat i := en']> (PizzaMissionState.m_state st))).
  assert (length (PizzaMissionState.m_state st') = 5%nat) as Hlen'
    by (cbn; by rewrite length_insert).
  assert (PizzaMissionState.m_state st' !! Z.to_nat i = Some en') as Hen'.
  { cbn. apply list_lookup_insert_eq. by eapply lookup_lt_Some. }
  assert (first_match (PizzaMissionState.m_state st')
            (to_MxU8 (actorId g)) (Some i)) as Hfirst'.
  { apply (first_match_keys (PizzaMissionState.m_state st)); [|done].
    cbn. rewrite list_fmap_insert. unfold en'. rewrite Hlaw.
    symmetry. apply list_insert_id. by rewrite list_lookup_fmap, Hen. }
  assert (bound_to (started g p a st i en) p a st') as Hbound'.
  { unfold bound_to, started. cbn -[insert lookup].
    split_and!; [done|apply lookup_insert_eq|done|done|].
    rewrite lookup_insert_eq. by eexists. }
  exists (started g p a st i en), st'. split_and!.
  - exact (FUN_10038220_run obj g p a st i en Hbound Hfirst Hen).
  - exact Hbound'.
  - destruct (GetState_run st' (to_MxU8 (actorId g)) Hlen')
      as (r & Hrun & Hr).
    rewrite (first_match_unique _ _ _ _ Hr Hfirst') in Hrun. exact Hrun.
  - eexists. split.
    + exact (FUN_10038220_run obj' _ p a st' i en' Hbound' Hfirst' Hen').
    + done.
Qed.

End Mission.

(** *** Runs *)

Section FurtherRuns.
Import ResultCodes.
Import SaveFormat.
Import Scene.
Import Samples.
Import MissionSamples.

Lemma sample_first_3 :
  first_match (PizzaMissionState.m_state sample) (to_MxU8 3) (Some 2).
Proof.
  cbn. split; [lia|]. split; [by eexists|].
  intros [|[|j]] e Hj He; [by injection He as <-|by injection He as <-|lia].
Qed.

Lemma sample_first_9 :
  first_match (PizzaMissionState.m_state sample) (to_MxU8 9) None.
Proof.
  cbn. intros [|[|[|[|[|j]]]]] e He; try (by injection He as <-).
  done.
Qed.

Lemma game_bound (id : Z) :
  Mission.bound_to (game id) 1%positive 2%positive sample.
Proof. unfold Mission.bound_to. split_and!; done. Qed.

Example game_3_started :
  ∃ g', Mission.FUN_10038220 0 (game 3) = Done (tt, g') ∧
    Pizza.m_entry (Mission.pizza g') = Some 2 ∧
    Mission.missions g' !! 1%positive =
      Some (PizzaMissionState.mk 1
              [mkEntry 1 0; mkEntry 2 2147483648; mkEntry 3 2147483648;
               mkEntry 4 4294967295; mkEntry 3 256]) ∧
    Mission.act1_unk0x018 g' !! 2%positive = Some 3 ∧
    Mission.g_isleFlags g' = 5.
Proof.
  exists (Mission.started (game 3) 1%positive 2%positive sample 2 (mkEntry 3 7)).
  split.
  - exact (FUN_10038220_run 0 (game 3) 1%positive 2%positive sample 2
             (mkEntry 3 7) (game_bound 3) sample_first_3 eq_refl).
  - split_and!; reflexivity.
Qed.

Lemma GetState_stops_at_first_witness :
  PizzaMissionState.GetState sample (to_MxU8 3) = Done (Some 2, seqZ 0 (2 + 1)).
Proof.
  apply (proj1 (GetState_stops_at_first sample (to_MxU8 3) eq_refl)).
  exact sample_first_3.
Defined.

Lemma GetState_keys_only_witness :
  PizzaMissionState.GetState sample 3 = PizzaMissionState.GetState same_keys 3.
Proof. apply (GetState_keys_only sample same_keys 3); reflexivity. Defined.

Lemma Serialize_never_fails_witness :
  ∃ s' later,
    PizzaMissionState.Serialize sample (mkFile c_write []) = Done (SUCCESS, s') ∧
    PizzaMissionState.s_calls s' =
      PizzaMissionState.CallLegoStateSerialize :: later ∧
    length (PizzaMissionState.m_state (PizzaMissionState.s_this s')) = 5%nat ∧
    PizzaMissionState.m_unk0x0c (PizzaMissionState.s_this s') =
      PizzaMissionState.m_unk0x0c sample.
Proof.
  apply (Serialize_never_fails sample (mkFile c_write [])). reflexivity.
Defined.

Lemma Serialize_neither_mode_witness :
  ∃ s', PizzaMissionState.Serialize sample (mkFile c_closed [1; 2]) =
          Done (SUCCESS, s') ∧
    PizzaMissionState.s_this s' = sample ∧
    PizzaMissionState.s_file s' = mkFile c_closed [1; 2] ∧
    PizzaMissionState.s_calls s' = [PizzaMissionState.CallLegoStateSerialize].
Proof.
  apply (Serialize_neither_mode sample (mkFile c_closed [1; 2])
           (mkFile c_closed [1; 2]) 0); reflexivity.
Defined.

Lemma Serialize_write_image_witness :
  ∃ s', PizzaMissionState.Serialize sample (mkFile c_write []) =
          Done (SUCCESS, s') ∧
    PizzaMissionState.s_this s' = sample ∧
    PizzaMissionState.s_file s' =
      mkFile c_write
        ([] ++ [] ++ concat (map encode (PizzaMissionState.m_state sample))) ∧
    (∀ w, Forall (λ e, length (encode e) = w) (PizzaMissionState.m_state sample) →
       length (m_bytes (PizzaMissionState.s_file s')) =
       (length (@nil byte) + length (@nil byte) + 5 * w)%nat).
Proof.
  apply (@Serialize_write_image ResultCodes.types SaveFormat.interface
           encode [] SaveFormat_write SaveFormat_base_write sample []).
  reflexivity.
Defined.

Lemma CreateState_frame_witness :
  ∃ s', Pizza.CreateState pizza0 = Done (tt, s') ∧
    Pizza.m_skateboard (Pizza.this s') = None ∧
    tickleManager (Pizza.env s') = [].
Proof.
  destruct (@CreateState_frame Scene.interface pizza0)
    as (s' & Hrun & _ & _ & Hsk & _ & _ & _ & Htm & _).
  exists s'. split_and!; [exact Hrun|exact Hsk|exact Htm].
Defined.

Lemma CreateState_again_witness :
  ∃ s' s2',
    Pizza.CreateState pizza0 = Done (tt, s') ∧
    Pizza.CreateState s' = Done (tt, s2') ∧
    calls (Pizza.env s2') =
      calls (Pizza.env s') ++ [CallGetState "PizzaMissionState";
                               CallGetState "Act1State"] ∧
    gameState (Pizza.env s2') = gameState (Pizza.env s') ∧
    Pizza.m_state (Pizza.this s2') = Pizza.m_state (Pizza.this s') ∧
    Pizza.m_act1state (Pizza.this s2') = Pizza.m_act1state (Pizza.this s').
Proof.
  exists pizza1.
  destruct (@CreateState_again Scene.interface pizza0 pizza1 pizza1
              eq_refl eq_refl) as (s2' & Hrun & Hrest).
  exists s2'. split; [reflexivity|]. split; [exact Hrun|exact Hrest].
Defined.

Lemma Create_without_world_witness :
  @Pizza.Create ResultCodes.types unbound tt pizza_unbound = Fault.
Proof.
  apply (@Create_without_world ResultCodes.types unbound tt pizza_unbound
           (mkActor None "isle") (Pizza.env pizza_unbound)); reflexivity.
Defined.

Lemma Create_success_calls_witness :
  ∃ s', Pizza.Create true pizza0 = Done (SUCCESS, s') ∧
    calls (Pizza.env s') =
      calls (Pizza.env pizza0) ++ [CallIsleActorCreate]
      ++ protocol "PizzaMissionState" (gameState (Pizza.env pizza0))
      ++ protocol "Act1State" (gameState (Pizza.env pizza0))
      ++ [CallFind the_world "isle" 33] ∧
    tickleManager (Pizza.env s') = tickleManager (Pizza.env pizza0) ∧
    worlds (Pizza.env s') = worlds (Pizza.env pizza0) ∧
    Pizza.base (Pizza.this s') = mkActor (Some the_world) "isle" ∧
    is_Some (Pizza.m_state (Pizza.this s')) ∧
    is_Some (Pizza.m_act1state (Pizza.this s')) ∧
    Pizza.m_skateboard (Pizza.this s') =
      Find (worlds (Pizza.env pizza0)) the_world "isle" 33.
Proof.
  apply (@Create_success_calls ResultCodes.types Scene.interface true pizza0
           (mkActor (Some the_world) "isle") (Pizza.env pizza0) the_world);
    reflexivity.
Defined.

Lemma destroy_keeps_states_witness :
  ∃ s' e',
    Pizza.CreateState pizza0 = Done (tt, s') ∧
    Pizza.destroy 5%positive (Pizza.env s') = Done (tt, e') ∧
    gameState e' = gameState (Pizza.env s') ∧
    LegoGameState.GetState "PizzaMissionState" (gameState e')
      = Pizza.m_state (Pizza.this s').
Proof.
  exists pizza1.
  destruct (@destroy_keeps_states Scene.interface 5%positive pizza0 pizza1
              eq_refl) as (e' & Hrun & Hgs & _ & Hst & _).
  exists e'. split; [reflexivity|]. split_and!; [exact Hrun|exact Hgs|exact Hst].
Defined.


Lemma FUN_10038220_missing_key_witness :
  Mission.FUN_10038220 0 (game 9) = Fault.
Proof.
  exact (FUN_10038220_missing_key 0 (game 9) 1%positive 2%positive sample
           (game_bound 9) sample_first_9).
Defined.

Lemma FUN_10038220_unbound_witness :
  Mission.FUN_10038220 0 fresh_game = Fault.
Proof.
  apply (proj1 (proj2 (FUN_10038220_unbound 0 fresh_game))
           (mkActor None "isle")).
  reflexivity.
Defined.

Lemma FUN_10038220_clears_music_witness :
  ∃ g', Mission.FUN_10038220 0 (game 3) = Done (tt, g') ∧
    0 ≤ Mission.g_isleFlags g' ≤ Mission.g_isleFlags (game 3) ∧
    (∀ n, 0 ≤ n →
       Z.testbit (Mission.g_isleFlags g') n =
       Z.testbit (Mission.g_isleFlags (game 3)) n
       && negb (Z.testbit c_playMusic n)).
Proof.
  apply (FUN_10038220_clears_music 0 (game 3) 1%positive 2%positive sample
           2 (mkEntry 3 7) (game_bound 3) sample_first_3 eq_refl).
  cbn. lia.
Defined.

Lemma FUN_10038220_again_witness :
  ∃ g' st',
    Mission.FUN_10038220 0 (game 3) = Done (tt, g') ∧
    Mission.bound_to g' 1%positive 2%positive st' ∧
    PizzaMissionState.GetState st' (to_MxU8 (Mission.actorId g')) =
      Done (Pizza.m_entry (Mission.pizza g'), seqZ 0 (2 + 1)) ∧
    ∃ g'', Mission.FUN_10038220 1 g' = Done (tt, g'') ∧
           Pizza.m_entry (Mission.pizza g'') = Pizza.m_entry (Mission.pizza g').
Proof.
  apply (FUN_10038220_again 0 1 (game 3) 1%positive 2%positive sample
           2 (mkEntry 3 7)).
  - reflexivity.
  - exact (game_bound 3).
  - exact sample_first_3.
  - reflexivity.
Defined.

End FurtherRuns.
